(** * Ext.ux.Cache: a shallow embedding of src/Cache.js

    The cache class of src/Cache.js is embedded as Rocq functions over an
    inductive type of JavaScript values.  Stateful methods take the state
    and return the new one; a raised exception is a value of [Result].

    Conventions of the embedding:
    - a number is a double: an integer, a fraction with a power of two
      for denominator, [-0], or one of the three non-finite numbers;
    - a Date is its time value: [Some t] with [t] epoch milliseconds, or
      [None] for the invalid date;
    - a plain object is the list of its own enumerable members in
      enumeration order.  What it inherits from [Object.prototype] is
      accounted for where the engine calls or reads it: in
      [object.hasOwnProperty(i)], in [functionTable[type]], in the
      primitive value of an object and in an assignment under the name
      [__proto__].  The in-memory storage is modelled on the own members
      of its [items]: the statements that depend on the presence of a
      key there are about ordinary keys and states;
    - what is not code of the class is a parameter ([Host]) or an outcome
      of its own ([Outside]);
    - [Ext.JSON.decode] gives back the document [Ext.JSON.encode] was
      given, but for [-0], which is written as 0, so a Web Storage
      backend holds the document itself;
    - [Ext.Date.add] adds the milliseconds in exact arithmetic. *)

From Stdlib Require Import ZArith List String Ascii Bool Lia.
From Stdlib Require Import DecimalString DecimalZ DecimalPos.
Import ListNotations.
Local Open Scope string_scope.
Local Open Scope Z_scope.

Set Warnings "-register-all".

(** ** JavaScript values *)

(** A number is a double: [Fin x] is a finite number that is an integer
    ([+0] is [Fin 0]), [Frac m e] is [m / 2^e] with [m] odd, a finite
    number that is no integer, and [NegZero] is [-0]. *)
Inductive Number : Type :=
| Fin (x : Z)
| Frac (m : Z) (e : positive)
| NegZero
| NaN
| PosInf
| NegInf.

Fixpoint odd_part (p : positive) : positive :=
  match p with
  | xO q => odd_part q
  | _ => p
  end.

(** The terms that are doubles: 53 bits of mantissa, and the range of the
    exponent. *)
Definition is_double (n : Number) : bool :=
  match n with
  | Fin (Zpos p) | Fin (Zneg p) =>
      (Zpos (odd_part p) <? 2 ^ 53) && (Zpos p <? 2 ^ 1024)
  | Frac m e => Z.odd m && (Z.abs m <? 2 ^ 53) && (Zpos e <=? 1074)
  | _ => true
  end.

Inductive Value : Type :=
| VUndefined
| VNull
| VString (s : string)
| VNumber (n : Number)
| VBoolean (b : bool)
| VDate (t : option Z)
| VArray (items : list Value)
| VObject (members : list (string * Value))
| VFunction
| VRegexp
| VElement
| VTextNode
| VWhitespace.

(** [Ext.typeOf]. *)
Definition _get_value_type (value : Value) : string :=
  match value with
  | VUndefined => "undefined"
  | VNull => "null"
  | VString _ => "string"
  | VNumber _ => "number"
  | VBoolean _ => "boolean"
  | VDate _ => "date"
  | VArray _ => "array"
  | VObject _ => "object"
  | VFunction => "function"
  | VRegexp => "regexp"
  | VElement => "element"
  | VTextNode => "textnode"
  | VWhitespace => "whitespace"
  end.

(** ToBoolean: what [if (v)], [!v] and [v && w] test. *)
Definition truthy (v : Value) : bool :=
  match v with
  | VUndefined | VNull => false
  | VString s => negb (s =? "")%string
  | VNumber (Fin x) => negb (x =? 0)
  | VNumber NegZero => false
  | VNumber NaN => false
  | VNumber _ => true
  | VBoolean b => b
  | _ => true
  end.

(** ** Objects as member lists *)

Fixpoint obj_get {A : Type} (o : list (string * A)) (k : string) : option A :=
  match o with
  | [] => None
  | (k', v) :: o' => if (k' =? k)%string then Some v else obj_get o' k
  end.

Fixpoint obj_set {A : Type} (o : list (string * A)) (k : string) (v : A)
  : list (string * A) :=
  match o with
  | [] => [(k, v)]
  | (k', v') :: o' =>
      if (k' =? k)%string then (k', v) :: o' else (k', v') :: obj_set o' k v
  end.

Fixpoint obj_delete {A : Type} (o : list (string * A)) (k : string)
  : list (string * A) :=
  match o with
  | [] => []
  | (k', v') :: o' =>
      if (k' =? k)%string then obj_delete o' k else (k', v') :: obj_delete o' k
  end.

Definition obj_keys {A : Type} (o : list (string * A)) : list string :=
  map fst o.

(** [o[k]]: a missing member reads as [undefined]. *)
Definition obj_read (o : list (string * Value)) (k : string) : Value :=
  match obj_get o k with
  | Some v => v
  | None => VUndefined
  end.

(** ** The in-memory storage (Cache.js, lines 28-69)

    [items] is the list of the own members of the plain object the
    adapter keeps.  A name that a plain object inherits, such as
    [constructor] or [__proto__], reads as present in the code whatever
    was stored; such keys are set apart below as not [ordinary]. *)

Module MemStorage.

Record t : Type := mk {
  items : list (string * Value);
  keys : list string;
  length : Z
}.

Definition empty : t := mk [] [] 0.

(** [Ext.Array.remove]: the first occurrence is spliced out. *)
Fixpoint array_remove (l : list string) (k : string) : list string :=
  match l with
  | [] => []
  | x :: l' => if (x =? k)%string then l' else x :: array_remove l' k
  end.

Definition key (me : t) (index : nat) : option string :=
  nth_error (keys me) index.

Definition getItem (me : t) (k : string) : Value :=
  obj_read (items me) k.

Definition setItem (me : t) (k : string) (value : Value) : t :=
  let me1 :=
    if negb (truthy (obj_read (items me) k))
    then mk (items me) (keys me ++ [k]) (length me + 1)
    else me in
  mk (obj_set (items me1) k value) (keys me1) (length me1).

Definition removeItem (me : t) (k : string) : t :=
  if negb (truthy (obj_read (items me) k)) then me
  else mk (obj_delete (items me) k) (array_remove (keys me) k) (length me - 1).

Definition clear (me : t) : t := mk [] [] 0.

(** A call of the adapter. *)
Inductive call : Type :=
| SetItem (k : string) (value : Value)
| RemoveItem (k : string)
| Clear.

Definition step (me : t) (c : call) : t :=
  match c with
  | SetItem k v => setItem me k v
  | RemoveItem k => removeItem me k
  | Clear => clear me
  end.

Definition run (cs : list call) : t := fold_left step cs empty.

(** The invariant of the adapter: [length] counts the stored keys, and
    [keys] lists each stored key once. *)
Definition invariant (me : t) : Prop :=
  length me = Z.of_nat (List.length (obj_keys (items me)))
  /\ NoDup (keys me)
  /\ (forall k, In k (keys me) <-> In k (obj_keys (items me))).

End MemStorage.

(** ** Exceptions *)

Inductive Error : Type :=
| InvalidKey                          (* Cache key must be a non-empty string *)
| InvalidValue                        (* Cache value must be defined ... *)
| UnsupportedType (type : string)     (* Cache cannot store ... type values *)
| InvalidExpiration                   (* Cache expiration modifier must be ... *)
| InvalidValueType (type : string)    (* Invalid value type *)
| InvalidSerializedValue              (* Invalid serialized value *)
| InvalidSerializedType               (* Invalid serialized value type *)
| InvalidSerializedBoolean            (* Invalid serialized boolean value *)
| TypeError                           (* of the language: a property of null or
                                        undefined is read, what is called is
                                        no function, an object has no
                                        primitive value *)
| Outside.                            (* no exception of the code: the code
                                        leaves what is modelled, calling a
                                        function of the caller or of the host
                                        or replacing the prototype of an
                                        object *)

Inductive Result (A : Type) : Type :=
| Ok (a : A)
| Raise (e : Error).

Arguments Ok {A} a.
Arguments Raise {A} e.

Definition bind {A B : Type} (r : Result A) (f : A -> Result B) : Result B :=
  match r with
  | Ok a => f a
  | Raise e => Raise e
  end.

Notation "'do' x <- r ; k" := (bind r (fun x => k))
  (at level 10, x name, r at level 100, k at level 200).

(** ** Conversions of the language

    What the host renders in its own way is a parameter: the text of a
    date or of a function, the text of a number that is no integer below
    10^21, and the number read from a string that is neither a decimal
    integer up to 2^53 nor one of the three names below. *)

Record Host : Type := {
  host_to_string : Value -> string;
  host_number_to_string : Number -> string;
  host_to_number : string -> Number
}.

Definition Z_to_string (x : Z) : string :=
  NilZero.string_of_int (Z.to_int x).

Definition Z_of_string (s : string) : option Z :=
  option_map Z.of_int (NilZero.int_of_string s).

Fixpoint join (sep : string) (l : list string) : string :=
  match l with
  | [] => ""
  | [s] => s
  | s :: l' => s ++ sep ++ join sep l'
  end.

(** ToInteger of a finite number: the fraction is cut off, towards zero. *)
Definition truncate (n : Number) : option Z :=
  match n with
  | Fin x => Some x
  | Frac m e => Some (Z.quot m (2 ^ Zpos e))
  | NegZero => Some 0
  | _ => None
  end.

(** TimeClip. *)
Definition time_clip (x : Z) : option Z :=
  if Z.abs x <=? 8640000000000000 then Some x else None.

(** [new Date(n)]. *)
Definition new_Date (n : Number) : option Z :=
  match truncate n with
  | Some x => time_clip x
  | None => None
  end.

(** [d - 0] on a date: its time value. *)
Definition date_to_number (t : option Z) : Number :=
  match t with
  | Some x => Fin x
  | None => NaN
  end.

(** [(d - 0) + ''] on a date: a time value is an integer of at most 16
    digits. *)
Definition time_to_string (t : option Z) : string :=
  match t with
  | Some x => Z_to_string x
  | None => "NaN"
  end.

(** [n < now] for an integer [now]. *)
Definition number_below (n : Number) (now : Z) : bool :=
  match n with
  | Fin x => x <? now
  | Frac m e => Z.shiftr m (Zpos e) <? now
  | NegZero => 0 <? now
  | NegInf => true
  | _ => false
  end.

Definition callable (v : Value) : bool :=
  match v with
  | VFunction => true
  | _ => false
  end.

(** ToPrimitive of a plain object with own members [m], which inherits
    [toString] and [valueOf] of [Object.prototype] unless it has its own:
    with the number hint [valueOf] is tried first, with the string hint
    [toString]; the inherited [valueOf] returns the object itself, which
    is no primitive value. *)
Definition object_to_primitive (hint_number : bool)
  (m : list (string * Value)) : Result string :=
  if hint_number then
    match obj_get m "valueOf" with
    | Some VFunction => Raise Outside
    | _ =>
        match obj_get m "toString" with
        | None => Ok "[object Object]"
        | Some VFunction => Raise Outside
        | Some _ => Raise TypeError
        end
    end
  else
    match obj_get m "toString" with
    | None => Ok "[object Object]"
    | Some VFunction => Raise Outside
    | Some _ =>
        match obj_get m "valueOf" with
        | Some VFunction => Raise Outside
        | _ => Raise TypeError
        end
    end.

Section Conversions.

Variable host : Host.

(** ToString of a number. *)
Definition number_to_string (n : Number) : string :=
  match n with
  | Fin x =>
      if Z.abs x <? 10 ^ 21 then Z_to_string x
      else host_number_to_string host n
  | Frac _ _ => host_number_to_string host n
  | NegZero => "0"
  | NaN => "NaN"
  | PosInf => "Infinity"
  | NegInf => "-Infinity"
  end.

(** The text of a value: ToString of its primitive value.  The elements
    of an array are joined, each converted with the string hint. *)
Fixpoint to_string (hint_number : bool) (v : Value) : Result string :=
  match v with
  | VUndefined => Ok "undefined"
  | VNull => Ok "null"
  | VString s => Ok s
  | VNumber n => Ok (number_to_string n)
  | VBoolean b => Ok (if b then "true" else "false")
  | VArray items =>
      do parts <-
        (fix elements (l : list Value) : Result (list string) :=
           match l with
           | [] => Ok []
           | VUndefined :: l' => do r <- elements l'; Ok ("" :: r)
           | VNull :: l' => do r <- elements l'; Ok ("" :: r)
           | x :: l' =>
               do s <- to_string false x;
               do r <- elements l';
               Ok (s :: r)
           end) items;
      Ok (join "," parts)
  | VObject m => object_to_primitive hint_number m
  | _ => Ok (host_to_string host v)
  end.

(** [v + '']. *)
Definition js_to_string (v : Value) : Result string := to_string true v.

(** The name [v] stands for in [table[v]]. *)
Definition property_key (v : Value) : Result string := to_string false v.

Definition string_to_number (s : string) : Number :=
  if (s =? "Infinity")%string then PosInf
  else if (s =? "-Infinity")%string then NegInf
  else if (s =? "NaN")%string then NaN
  else match Z_of_string s with
       | Some x =>
           if Z.abs x <=? 2 ^ 53 then
             if (x =? 0) && String.prefix "-" s then NegZero else Fin x
           else host_to_number host s
       | None => host_to_number host s
       end.

(** [+v] and [v - 0]. *)
Definition to_number (v : Value) : Result Number :=
  match v with
  | VUndefined => Ok NaN
  | VNull => Ok (Fin 0)
  | VString s => Ok (string_to_number s)
  | VNumber n => Ok n
  | VBoolean b => Ok (if b then Fin 1 else Fin 0)
  | VDate t => Ok (date_to_number t)
  | _ => do s <- to_string true v; Ok (string_to_number s)
  end.

(** [v == s] for a string [s] that is not the text of a number. *)
Definition loose_eq_string (v : Value) (s : string) : Result bool :=
  match v with
  | VUndefined | VNull | VNumber _ | VBoolean _ => Ok false
  | _ => do t <- to_string true v; Ok (t =? s)%string
  end.

End Conversions.

(** ** What a plain object inherits *)

Definition has_own {A : Type} (o : list (string * A)) (k : string) : bool :=
  match obj_get o k with
  | Some _ => true
  | None => false
  end.

(** The names [Object.prototype] defines, those of the standard and those
    the browsers of the time add. *)
Definition object_prototype_names : list string :=
  ["constructor"; "toString"; "toLocaleString"; "valueOf"; "hasOwnProperty";
   "isPrototypeOf"; "propertyIsEnumerable"; "__proto__"; "__defineGetter__";
   "__defineSetter__"; "__lookupGetter__"; "__lookupSetter__"; "toSource";
   "watch"; "unwatch"].

Definition inherited (name : string) : bool :=
  existsb (String.eqb name) object_prototype_names.

(** [o.hasOwnProperty(name)] for a plain object [o] with own members [m]:
    the method is the inherited one unless [o] has a member of that name,
    which is called when it is a function and raises when it is not. *)
Definition call_hasOwnProperty (m : list (string * Value)) (name : string)
  : Result bool :=
  match obj_get m "hasOwnProperty" with
  | None => Ok (has_own m name)
  | Some VFunction => Raise Outside
  | Some _ => Raise TypeError
  end.

(** The members of [o] after [o[i] = v] on a plain object: the name
    [__proto__] adds no member.  The serializer assigns a node, which
    becomes the prototype of [o] and is not written by [Ext.JSON]. *)
Definition obj_assign (o : list (string * Value)) (i : string) (v : Value)
  : list (string * Value) :=
  if (i =? "__proto__")%string then o else obj_set o i v.

(** [o[i] = v] on a plain object that is used afterwards: under the name
    [__proto__] a primitive value is ignored, and any other value replaces
    the prototype of [o], which leaves the plain objects. *)
Definition assign_member (o : list (string * Value)) (i : string) (v : Value)
  : Result (list (string * Value)) :=
  if (i =? "__proto__")%string then
    match v with
    | VUndefined | VString _ | VNumber _ | VBoolean _ => Ok o
    | _ => Raise Outside
    end
  else Ok (obj_set o i v).

(** ** The serialization engine (Cache.js, lines 294-388) *)

Definition node (type : string) (value : Value) : Value :=
  VObject [("type", VString type); ("value", value)].

Definition _serialize_undefined : Value := VObject [("type", VString "undefined")].

Definition _serialize_null : Value := VObject [("type", VString "null")].

Definition _serialize_string (value : string) : Value :=
  node "string" (VString value).

Definition _serialize_number (value : Number) : Value :=
  match value with
  | NaN => node "number" (VString "NaN")
  | PosInf => node "number" (VString "Infinity")
  | NegInf => node "number" (VString "-Infinity")
  | _ => node "number" (VNumber value)
  end.

Definition _serialize_boolean (value : bool) : Value :=
  node "boolean" (VString (if value then "true" else "false")).

Definition _serialize_date (value : option Z) : Value :=
  node "date" (VString (time_to_string value)).

(** [_serialize_value(type, value)]: every caller passes
    [_get_value_type(value)] for [type], so the switch is on the value. *)
Fixpoint _serialize_value (value : Value) : Result Value :=
  match value with
  | VUndefined => Ok _serialize_undefined
  | VNull => Ok _serialize_null
  | VString s => Ok (_serialize_string s)
  | VNumber n => Ok (_serialize_number n)
  | VBoolean b => Ok (_serialize_boolean b)
  | VDate t => Ok (_serialize_date t)
  | VObject object =>
      (fix _serialize_object (l : list (string * Value))
           (result : list (string * Value)) : Result Value :=
         match l with
         | [] => Ok (node "object" (VObject result))
         | (i, item) :: l' =>
             do own <- call_hasOwnProperty object i;
             if own then
               do s <- _serialize_value item;
               _serialize_object l' (obj_assign result i s)
             else _serialize_object l' result
         end) object []
  | VArray array =>
      (fix _serialize_array (l : list Value) (result : list Value)
         : Result Value :=
         match l with
         | [] => Ok (node "array" (VArray result))
         | item :: l' =>
             do s <- _serialize_value item;
             _serialize_array l' (result ++ [s])%list
         end) array []
  | _ => Raise (InvalidValueType (_get_value_type value))
  end.

(** ** The deserialization engine (Cache.js, lines 104-113 and 408-530) *)

(** [i < n] for an integer [i]. *)
Definition below_number (i : Z) (n : Number) : bool :=
  match n with
  | Fin x => i <? x
  | Frac m e => i <=? Z.shiftr m (Zpos e)
  | PosInf => true
  | _ => false
  end.

Section Engine.

Variable host : Host.

(** [Ext.isObject(value)] holds of the plain objects only. *)
Definition _check_serialized (value : Value) : Result bool :=
  match value with
  | VObject m =>
      do has_type <- call_hasOwnProperty m "type";
      if has_type then
        do is_undefined <- loose_eq_string host (obj_read m "type") "undefined";
        if is_undefined then Ok true
        else
          do is_null <- loose_eq_string host (obj_read m "type") "null";
          if is_null then Ok true
          else
            do has_value <- call_hasOwnProperty m "value";
            if has_value then Ok true else Raise InvalidSerializedValue
      else Raise InvalidSerializedValue
  | _ => Raise InvalidSerializedValue
  end.

Definition _deserialize_string (value : Value) : Result Value :=
  do s <- js_to_string host value; Ok (VString s).

Definition _deserialize_number (value : Value) : Result Value :=
  match value with
  | VString s =>
      if (s =? "-Infinity")%string then Ok (VNumber NegInf)
      else if (s =? "Infinity")%string then Ok (VNumber PosInf)
      else if (s =? "NaN")%string then Ok (VNumber NaN)
      else do n <- to_number host value; Ok (VNumber n)
  | _ => do n <- to_number host value; Ok (VNumber n)
  end.

Definition _deserialize_boolean (value : Value) : Result Value :=
  match value with
  | VString s =>
      if (s =? "true")%string then Ok (VBoolean true)
      else if (s =? "false")%string then Ok (VBoolean false)
      else Raise InvalidSerializedBoolean
  | _ => Raise InvalidSerializedBoolean
  end.

Definition _deserialize_date (value : Value) : Result Value :=
  do n <- to_number host value; Ok (VDate (new_Date n)).

(** What [functionTable[key]] finds: one of its eight entries, or, the
    table being a plain object, a member of [Object.prototype]: its
    prototype, under the name [__proto__], or an inherited function. *)
Inductive Deserializer : Type :=
| FUndefined | FNull | FString | FNumber | FBoolean | FDate | FArray | FObject
| FPrototype | FInherited.

Definition functionTable (key : string) : option Deserializer :=
  if (key =? "undefined")%string then Some FUndefined
  else if (key =? "null")%string then Some FNull
  else if (key =? "string")%string then Some FString
  else if (key =? "number")%string then Some FNumber
  else if (key =? "boolean")%string then Some FBoolean
  else if (key =? "date")%string then Some FDate
  else if (key =? "array")%string then Some FArray
  else if (key =? "object")%string then Some FObject
  else if (key =? "__proto__")%string then Some FPrototype
  else if inherited key then Some FInherited
  else None.

(** The deserializers that do not recurse.  An inherited function is
    called on the cache itself, outside of the embedding; the prototype
    is no function and has no [call]. *)
Definition deserialize_scalar (fn : Deserializer) (value : Value)
  : Result Value :=
  match fn with
  | FUndefined => Ok VUndefined
  | FNull => Ok VNull
  | FString => _deserialize_string value
  | FNumber => _deserialize_number value
  | FBoolean => _deserialize_boolean value
  | FDate => _deserialize_date value
  | FPrototype => Raise TypeError
  | FInherited => Raise Outside
  | FArray | FObject => Raise InvalidSerializedType
  end.

(** [_deserialize_value(type, undefined)]: an array deserializer reads
    [undefined.length]; an object deserializer enumerates nothing. *)
Definition deserialize_absent (type : Value) : Result Value :=
  do key <- property_key host type;
  match functionTable key with
  | None => Raise InvalidSerializedType
  | Some FArray => Raise TypeError
  | Some FObject => Ok (VObject [])
  | Some fn => deserialize_scalar fn VUndefined
  end.

(** The body of the two loops: [item['type']] and [item['value']] are
    read, the item is checked, and its value deserialized by [rec]. *)
Definition deserialize_item (rec : Value -> Value -> Result Value)
  (item : Value) : Result Value :=
  match item with
  | VUndefined | VNull => Raise TypeError
  | VObject m =>
      do _ <- _check_serialized item;
      match (fix find (l : list (string * Value)) :=
               match l with
               | [] => None
               | (k, v) :: l' =>
                   if (k =? "value")%string then Some (rec v) else find l'
               end) m with
      | Some deserialize => deserialize (obj_read m "type")
      | None => deserialize_absent (obj_read m "type")
      end
  | _ => do _ <- _check_serialized item; deserialize_absent VUndefined
  end.

(** [_deserialize_value(type, value)], with [_deserialize_array] and
    [_deserialize_object] as its two loops.  The recursion is on the
    payload, which is therefore the first argument. *)
Fixpoint _deserialize_value (value : Value) (type : Value) {struct value}
  : Result Value :=
  do key <- property_key host type;
  match functionTable key with
  | None => Raise InvalidSerializedType
  | Some FArray =>
      match value with
      | VArray array =>
          (fix loop (l : list Value) (result : list Value) : Result Value :=
             match l with
             | [] => Ok (VArray result)
             | item :: l' =>
                 do x <- deserialize_item _deserialize_value item;
                 loop l' (result ++ [x])%list
             end) array []
      | VUndefined | VNull => Raise TypeError
      | VString s =>
          (* value[0] is a one-character string: the check raises *)
          if (s =? "")%string then Ok (VArray [])
          else Raise InvalidSerializedValue
      | VObject o =>
          (* an object is read through its length member *)
          let items :=
            (fix each (l : list (string * Value)) :=
               match l with
               | [] => []
               | (k, v) :: l' =>
                   (k, deserialize_item _deserialize_value v) :: each l'
               end) o in
          do length <- to_number host (obj_read o "length");
          (fix loop (fuel : nat) (i : Z) (result : list Value)
             : Result Value :=
             if below_number i length then
               match fuel, obj_get items (Z_to_string i) with
               | S fuel', Some r =>
                   do x <- r; loop fuel' (i + 1) (result ++ [x])%list
               | _, _ => Raise TypeError
               end
             else Ok (VArray result)) (List.length o) 0 []
      | _ => Ok (VArray [])
      end
  | Some FObject =>
      match value with
      | VObject o =>
          (fix loop (l : list (string * Value)) (result : list (string * Value))
             : Result Value :=
             match l with
             | [] => Ok (VObject result)
             | (i, item) :: l' =>
                 do x <- deserialize_item _deserialize_value item;
                 do result' <- assign_member result i x;
                 loop l' result'
             end) o []
      | VArray array =>
          (* for-in over an array enumerates its indices *)
          (fix loop (l : list Value) (i : Z) (result : list (string * Value))
             : Result Value :=
             match l with
             | [] => Ok (VObject result)
             | item :: l' =>
                 do x <- deserialize_item _deserialize_value item;
                 loop l' (i + 1) (obj_set result (Z_to_string i) x)
             end) array 0 []
      | VString s =>
          if (s =? "")%string then Ok (VObject [])
          else Raise InvalidSerializedValue
      | _ => Ok (VObject [])
      end
  | Some fn => deserialize_scalar fn value
  end.

End Engine.

(** ** The storage of a cache

    [Memory] is the in-memory storage above; [Web] is a Web Storage
    (window.localStorage or window.sessionStorage), which keeps one
    document per key, in the order [key(i)] enumerates them.  The
    constructor sets [webStorage] exactly when it binds a Web Storage,
    and forces the prefix to be empty otherwise. *)

Inductive Storage : Type :=
| Memory (m : MemStorage.t)
| Web (w : list (string * Value)).

Record Cache : Type := mkCache {
  keyPrefix : string;
  storage : Storage
}.

Definition webStorage (me : Cache) : bool :=
  match storage me with
  | Web _ => true
  | Memory _ => false
  end.

Definition memory_cache (m : MemStorage.t) : Cache := mkCache "" (Memory m).

Definition web_cache (keyPrefix : string) (w : list (string * Value)) : Cache :=
  mkCache keyPrefix (Web w).

Definition setItem (s : Storage) (key : string) (value : Value) : Storage :=
  match s with
  | Memory m => Memory (MemStorage.setItem m key value)
  | Web w => Web (obj_set w key value)
  end.

Definition removeItem (s : Storage) (key : string) : Storage :=
  match s with
  | Memory m => Memory (MemStorage.removeItem m key)
  | Web w => Web (obj_delete w key)
  end.

Definition storage_length (s : Storage) : Z :=
  match s with
  | Memory m => MemStorage.length m
  | Web w => Z.of_nat (List.length w)
  end.

Definition storage_key (s : Storage) (index : nat) : option string :=
  match s with
  | Memory m => MemStorage.key m index
  | Web w => nth_error (obj_keys w) index
  end.

(** [key.indexOf(pfx)] and [key.substr(start)]. *)
Definition indexOf (key pfx : string) : option nat := String.index 0 pfx key.

Definition substr (key : string) (start : nat) : string :=
  String.substring start (String.length key - start) key.

(** [v.name]: reading a property of [null] or [undefined] raises. *)
Definition prop (v : Value) (name : string) : Result Value :=
  match v with
  | VUndefined | VNull => Raise TypeError
  | VObject m => Ok (obj_read m name)
  | _ => Ok VUndefined
  end.

(** ** The cache facade (Cache.js, lines 134-282 and 393-542) *)

Section Facade.

Variable host : Host.

Definition remove (me : Cache) (key : string) : Cache :=
  mkCache (keyPrefix me) (removeItem (storage me) (keyPrefix me ++ key)).

(** What [Ext.JSON.decode] reads back of what [Ext.JSON.encode] wrote: the
    document itself, but for [-0], which is written as 0. *)
Fixpoint json_image (v : Value) : Value :=
  match v with
  | VNumber NegZero => VNumber (Fin 0)
  | VArray l => VArray (map json_image l)
  | VObject m => VObject (map (fun kv => (fst kv, json_image (snd kv))) m)
  | _ => v
  end.

Definition _freeze (me : Cache) (value : Value) : Result Value :=
  if negb (webStorage me) then Ok value
  else do result <- _serialize_value value; Ok (json_image result).

(** [me._deserialize_value(thawed['type'], thawed['value'])]. *)
Definition deserialize (thawed : Value) : Result Value :=
  do type <- prop thawed "type";
  do payload <- prop thawed "value";
  _deserialize_value host payload type.

Definition _thaw (me : Cache) (value : Value) : Result Value :=
  if negb (webStorage me) then Ok value
  else deserialize value.

(** [value ? me._thaw(value) : undefined].  A Web Storage holds the
    text of a document, which is never the empty string. *)
Definition _fetch_value (me : Cache) (key : string) : Result Value :=
  match storage me with
  | Memory m =>
      let value := MemStorage.getItem m (keyPrefix me ++ key) in
      if truthy value then _thaw me value else Ok VUndefined
  | Web w =>
      match obj_get w (keyPrefix me ++ key) with
      | Some value => _thaw me value
      | None => Ok VUndefined
      end
  end.

(** [Ext.isNumber]: a finite number. *)
Definition isNumber (v : Value) : bool :=
  match v with
  | VNumber (Fin _) | VNumber (Frac _ _) | VNumber NegZero => true
  | _ => false
  end.

Definition isDate (v : Value) : bool :=
  match v with
  | VDate _ => true
  | _ => false
  end.

Definition unsupported (type : string) : bool :=
  (type =? "function")%string || (type =? "regexp")%string
  || (type =? "element")%string || (type =? "textnode")%string
  || (type =? "whitespace")%string.

(** The four checks that open [set]. *)
Definition check_input (key value expires : Value) : Result string :=
  match key with
  | VString k =>
      if (k =? "")%string then Raise InvalidKey
      else
        match value with
        | VUndefined => Raise InvalidValue
        | _ =>
            if unsupported (_get_value_type value)
            then Raise (UnsupportedType (_get_value_type value))
            else
              match expires with
              | VUndefined => Ok k
              | _ =>
                  if negb (isNumber expires) && negb (isDate expires)
                  then Raise InvalidExpiration
                  else Ok k
              end
        end
  | _ => Raise InvalidKey
  end.

(** The expiration of the entry, at time [now]; [expires] has passed the
    checks, so it is [undefined], a finite number or a date, and the
    number is added by [Ext.Date.add(new Date(), Ext.Date.MILLI, expires)],
    which sets the milliseconds of the date to their sum with the number,
    cut to an integer, and does nothing for a zero. *)
Definition expiration (now : Z) (expires : Value) : Value :=
  match expires with
  | VDate _ => expires
  | VNumber (Fin ms) => VDate (new_Date (Fin (now + ms)))
  | VNumber (Frac m e) =>
      let ms := now mod 1000 in
      VDate (new_Date
               (Fin (now - ms + Z.quot (ms * 2 ^ Zpos e + m) (2 ^ Zpos e))))
  | VNumber NegZero => VDate (new_Date (Fin now))
  | _ => VUndefined
  end.

Definition entry (value exp : Value) : Value :=
  VObject [("value", value); ("expires", exp)].

(** [set(key, value, expires)] at time [now]: the cache after the call,
    and the value returned or the exception raised. *)
Definition set (me : Cache) (now : Z) (key value expires : Value)
  : Cache * Result Value :=
  match check_input key value expires with
  | Raise e => (me, Raise e)
  | Ok k =>
      let me1 := remove me k in
      let exp := expiration now expires in
      match _freeze me1 (entry value exp) with
      | Raise e => (me1, Raise e)
      | Ok frozen =>
          (mkCache (keyPrefix me1)
             (setItem (storage me1) (keyPrefix me1 ++ k) frozen),
           Ok value)
      end
  end.

(** [item.expires && item.expires < now]. *)
Definition expired (expires : Value) (now : Z) : Result bool :=
  if truthy expires then
    do n <- to_number host expires;
    Ok (number_below n now)
  else Ok false.

(** [get(key)] at time [now]. *)
Definition get (me : Cache) (now : Z) (key : string) : Cache * Result Value :=
  match _fetch_value me key with
  | Raise e => (me, Raise e)
  | Ok VUndefined => (me, Ok VUndefined)
  | Ok item =>
      match prop item "expires" with
      | Raise e => (me, Raise e)
      | Ok expires =>
          match expired expires now with
          | Raise e => (me, Raise e)
          | Ok true => (remove me key, Ok VUndefined)
          | Ok false => (me, prop item "value")
          end
      end
  end.

Definition has (me : Cache) (key : string) : Result bool :=
  do item <- _fetch_value me key;
  Ok match item with VUndefined => false | _ => true end.

(** [_get_keys(storage)]: [storage.key(i)] for [i] below
    [storage.length]; a key that contains the prefix is cut after the
    first occurrence of the prefix. *)
Fixpoint get_keys_loop (s : Storage) (pfx : string) (n : nat) (i : nat)
  (keys : list string) : Result (list string) :=
  match n with
  | O => Ok keys
  | S n' =>
      match storage_key s i with
      | None => Raise TypeError
      | Some key =>
          match indexOf key pfx with
          | Some idx =>
              let short_key := substr key (idx + String.length pfx) in
              get_keys_loop s pfx n' (S i) (keys ++ [short_key])
          | None => get_keys_loop s pfx n' (S i) keys
          end
      end
  end.

Definition _get_keys (me : Cache) (s : Storage) : Result (list string) :=
  get_keys_loop s (keyPrefix me) (Z.to_nat (storage_length s)) 0 [].

Definition keys (me : Cache) : Result (list string) :=
  _get_keys me (storage me).

Definition clear (me : Cache) : Cache * Result unit :=
  match storage me with
  | Memory m => (mkCache (keyPrefix me) (Memory (MemStorage.clear m)), Ok tt)
  | Web _ =>
      match keys me with
      | Raise e => (me, Raise e)
      | Ok ks => (fold_left remove ks me, Ok tt)
      end
  end.

End Facade.

(** ** Storable values and their documents

    The values of the eight variants that a cache on either storage gives
    back as they were set: a number is a double other than [-0], which
    [Ext.JSON] writes as 0; a date is the invalid date or lies in the
    range of time values; the members of an object have distinct names,
    none of them [hasOwnProperty], which the serializer calls on the
    object, or [__proto__], which is no member once assigned. *)

Fixpoint distinct (l : list string) : bool :=
  match l with
  | [] => true
  | x :: l' => negb (existsb (String.eqb x) l') && distinct l'
  end.

Definition storable_number (n : Number) : bool :=
  match n with
  | NegZero => false
  | _ => is_double n
  end.

Definition plain_names (names : list string) : bool :=
  distinct names
  && negb (existsb (String.eqb "hasOwnProperty") names)
  && negb (existsb (String.eqb "__proto__") names).

Fixpoint storable (v : Value) : bool :=
  match v with
  | VUndefined | VNull | VString _ | VBoolean _ => true
  | VNumber n => storable_number n
  | VDate None => true
  | VDate (Some t) => Z.abs t <=? 8640000000000000
  | VArray l => forallb storable l
  | VObject m =>
      plain_names (map fst m) && forallb (fun kv => storable (snd kv)) m
  | _ => false
  end.

(** The document of a storable value. *)
Fixpoint document (v : Value) : Value :=
  match v with
  | VUndefined => _serialize_undefined
  | VNull => _serialize_null
  | VString s => _serialize_string s
  | VNumber n => _serialize_number n
  | VBoolean b => _serialize_boolean b
  | VDate t => _serialize_date t
  | VArray l => node "array" (VArray (map document l))
  | VObject m =>
      node "object" (VObject (map (fun kv => (fst kv, document (snd kv))) m))
  | _ => VUndefined
  end.

Section Value_induction.

Variable P : Value -> Prop.
Hypothesis leaf :
  forall v, match v with VArray _ | VObject _ => False | _ => True end -> P v.
Hypothesis array : forall l, Forall P l -> P (VArray l).
Hypothesis object : forall m, Forall (fun kv => P (snd kv)) m -> P (VObject m).

Fixpoint Value_nested_ind (v : Value) : P v :=
  match v with
  | VArray l =>
      array l ((fix all (l : list Value) : Forall P l :=
                  match l with
                  | [] => Forall_nil _
                  | x :: l' => Forall_cons _ (Value_nested_ind x) (all l')
                  end) l)
  | VObject m =>
      object m ((fix all (m : list (string * Value))
                   : Forall (fun kv => P (snd kv)) m :=
                   match m with
                   | [] => Forall_nil _
                   | kv :: m' =>
                       Forall_cons _ (Value_nested_ind (snd kv)) (all m')
                   end) m)
  | v' => leaf v' I
  end.

End Value_induction.

(** ** The loops of the engine, by name *)

Definition serialize_array_loop :=
  fix _serialize_array (l : list Value) (result : list Value) : Result Value :=
    match l with
    | [] => Ok (node "array" (VArray result))
    | item :: l' =>
        do s <- _serialize_value item;
        _serialize_array l' (result ++ [s])%list
    end.

Definition serialize_object_loop (object : list (string * Value)) :=
  fix _serialize_object (l : list (string * Value))
      (result : list (string * Value)) : Result Value :=
    match l with
    | [] => Ok (node "object" (VObject result))
    | (i, item) :: l' =>
        do own <- call_hasOwnProperty object i;
        if own then
          do s <- _serialize_value item;
          _serialize_object l' (obj_assign result i s)
        else _serialize_object l' result
    end.

Section Loops.

Variable host : Host.

Definition deserialize_array_loop :=
  fix loop (l : list Value) (result : list Value) : Result Value :=
    match l with
    | [] => Ok (VArray result)
    | item :: l' =>
        do x <- deserialize_item host (_deserialize_value host) item;
        loop l' (result ++ [x])%list
    end.

Definition deserialize_object_loop :=
  fix loop (l : list (string * Value)) (result : list (string * Value))
    : Result Value :=
    match l with
    | [] => Ok (VObject result)
    | (i, item) :: l' =>
        do x <- deserialize_item host (_deserialize_value host) item;
        do result' <- assign_member result i x;
        loop l' result'
    end.

End Loops.

Definition doc_type (d : Value) : Value :=
  match d with
  | VObject m => obj_read m "type"
  | _ => VUndefined
  end.

Definition doc_payload (d : Value) : Value :=
  match d with
  | VObject m => obj_read m "value"
  | _ => VUndefined
  end.

(** The suffixes [_get_keys] collects from a list of keys. *)
Definition short_keys (pfx : string) (ks : list string) : list string :=
  flat_map
    (fun key =>
       match indexOf key pfx with
       | Some idx => [substr key (idx + String.length pfx)]
       | None => []
       end) ks.

Definition is_structure (v : Value) : bool :=
  match v with
  | VArray _ | VObject _ => true
  | _ => false
  end.

(** The state the storage is in when every value it was given is truthy,
    as the entries of the cache are. *)
Definition aligned (me : MemStorage.t) : Prop :=
  MemStorage.keys me = obj_keys (MemStorage.items me)
  /\ NoDup (MemStorage.keys me)
  /\ MemStorage.length me = Z.of_nat (List.length (MemStorage.keys me))
  /\ Forall (fun kv => truthy (snd kv) = true) (MemStorage.items me).

Definition truthy_call (c : MemStorage.call) : bool :=
  match c with
  | MemStorage.SetItem _ value => truthy value
  | _ => true
  end.

(** The key of the call is no name that [items], a plain object, inherits. *)
Definition ordinary_call (c : MemStorage.call) : bool :=
  match c with
  | MemStorage.SetItem k _ | MemStorage.RemoveItem k => negb (inherited k)
  | MemStorage.Clear => true
  end.

(** ** Caches and values of the examples *)

(** A host for the examples: the empty string reads as 0, and no other
    text of its own as a number. *)
Definition plain_host : Host :=
  {| host_to_string := fun _ => "[host object]";
     host_number_to_string := fun _ => "[host number]";
     host_to_number := fun s => if (s =? "")%string then Fin 0 else NaN |}.

Definition sample_value : Value :=
  VObject [("x", VNumber (Fin 1));
           ("y", VArray [VNumber NaN; VString "two"; VNull;
                         VDate (Some 1320000000000); VBoolean true;
                         VUndefined; VNumber NegInf])].

Definition default_prefix : string := "Ext.ux.Cache.".

Definition cache_with_k : Cache :=
  web_cache default_prefix
    [("Ext.ux.Cache.k", document (entry (VString "old") VUndefined))].

(** A Web Storage cache after [set("k", "v", -1)] at time 1000. *)
Definition expired_cache : Cache :=
  fst (set (web_cache default_prefix []) 1000 (VString "k") (VString "v")
         (VNumber (Fin (-1)))).

(** ** The backend under a key *)

(** What the storage holds under the prefixed key, before any thawing. *)
Definition backend_entry (me : Cache) (key : string) : option Value :=
  match storage me with
  | Memory m => obj_get (MemStorage.items m) (keyPrefix me ++ key)
  | Web w => obj_get w (keyPrefix me ++ key)
  end.

(** ** The inputs of [set] *)

(** No function, regular expression or node of a document at any depth. *)
Fixpoint supported (v : Value) : bool :=
  match v with
  | VArray l => forallb supported l
  | VObject m => forallb (fun kv => supported (snd kv)) m
  | VFunction | VRegexp | VElement | VTextNode | VWhitespace => false
  | _ => true
  end.

(** [Ext.isString(key) && key !== '']. *)
Definition valid_key (key : Value) : bool :=
  match key with
  | VString k => negb (k =? "")%string
  | _ => false
  end.

(** [expires === undefined || Ext.isNumber(expires) || Ext.isDate(expires)]. *)
Definition valid_expires (expires : Value) : bool :=
  match expires with
  | VUndefined => true
  | _ => isNumber expires || isDate expires
  end.

(** Some object of the value, at any depth, has a member of its own named
    [hasOwnProperty], which the serializer then calls in the place of the
    inherited method. *)
Fixpoint shadows (v : Value) : bool :=
  match v with
  | VArray l => existsb shadows l
  | VObject m =>
      has_own m "hasOwnProperty" || existsb (fun kv => shadows (snd kv)) m
  | _ => false
  end.

(** What the serializer does with a value whose objects keep the inherited
    [hasOwnProperty], by what the value holds. *)
Definition serializes (v : Value) : Prop :=
  shadows v = false ->
  (supported v = true -> exists s, _serialize_value v = Ok s)
  /\ (supported v = false ->
      exists t, _serialize_value v = Raise (InvalidValueType t)
                /\ unsupported t = true).

(** A document that the loops of the deserializer accept, as [Ext.JSON]
    gives it back. *)
Definition readable (host : Host) (d : Value) : Prop :=
  exists x,
    deserialize_item host (_deserialize_value host) (json_image d) = Ok x.

(** A cache is aligned when its in-memory storage is; a Web Storage has
    no keys array or length of its own to keep. *)
Definition cache_aligned (me : Cache) : Prop :=
  match storage me with
  | Memory m => aligned m
  | Web _ => True
  end.

(** The in-memory storage keeps its items in a plain object, which reads
    the names of [Object.prototype] as present whatever was stored.  A
    state is ordinary when no item is stored under such a name, and a key
    is ordinary for a cache when the storage is a Web Storage or the
    prefixed key is no such name. *)
Definition ordinary (m : MemStorage.t) : Prop :=
  Forall (fun kv => inherited (fst kv) = false) (MemStorage.items m).

Definition cache_ordinary (me : Cache) : Prop :=
  match storage me with
  | Memory m => ordinary m
  | Web _ => True
  end.

Definition ordinary_key (me : Cache) (k : string) : bool :=
  webStorage me || negb (inherited (keyPrefix me ++ k)).

(** ** The constructor (Cache.js, lines 79-114) *)

(** What the constructor reads of the browser: [Ext.isIE6], [Ext.isIE7],
    and the two Web Storages of the window, when it has them. *)
Record Browser : Type := {
  isIE6 : bool;
  isIE7 : bool;
  localStorage : option (list (string * Value));
  sessionStorage : option (list (string * Value))
}.

(** The two options of [config]: [storage], any value, and [keyPrefix],
    a string when it is given.  The other members of [config], which
    [Ext.apply] would copy onto the cache, are outside the embedding. *)
Record Config : Type := {
  config_storage : Value;
  config_keyPrefix : option string
}.

Definition is_string (v : Value) (s : string) : bool :=
  match v with
  | VString s' => (s' =? s)%string
  | _ => false
  end.

(** [constructor(config)]; [memory] is the in-memory storage of the
    class, which a cache keeps when no Web Storage is bound. *)
Definition constructor (browser : Browser) (memory : MemStorage.t)
  (config : Config) : Cache :=
  let bound :=
    if is_string (config_storage config) "permanent" then
      if negb (isIE6 browser) && negb (isIE7 browser)
      then localStorage browser else None
    else if is_string (config_storage config) "session"
            || negb (truthy (config_storage config)) then
      if negb (isIE6 browser) && negb (isIE7 browser)
      then sessionStorage browser else None
    else None in
  match bound with
  | Some w =>
      mkCache
        match config_keyPrefix config with
        | Some pfx => pfx
        | None => "Ext.ux.Cache."
        end (Web w)
  | None => mkCache "" (Memory memory)
  end.

(** * Properties *)

(** ** Decimal texts *)

Lemma Z_of_string_to_string (x : Z) : Z_of_string (Z_to_string x) = Some x.
Proof.
  unfold Z_of_string, Z_to_string.
  rewrite NilZero.isi.
  - simpl. now rewrite DecimalZ.of_to.
  - destruct x; simpl; try discriminate.
    intros [= H]. now apply (DecimalPos.Unsigned.to_uint_nonnil p).
  - destruct x; simpl; try discriminate.
    intros [= H]. now apply (DecimalPos.Unsigned.to_uint_nonnil p).
Qed.

(** ** Member lists *)

Lemma obj_set_fresh {A : Type} (o : list (string * A)) (k : string) (v : A) :
  existsb (String.eqb k) (map fst o) = false ->
  obj_set o k v = (o ++ [(k, v)])%list.
Proof.
  induction o as [|[k' v'] o IH]; simpl; [reflexivity|].
  rewrite orb_false_iff. intros [Hk Ho].
  rewrite String.eqb_sym, Hk. now rewrite IH.
Qed.

Lemma obj_get_set_same {A : Type} (o : list (string * A)) (k : string) (v : A) :
  obj_get (obj_set o k v) k = Some v.
Proof.
  induction o as [|[k' v'] o IH]; simpl.
  - now rewrite String.eqb_refl.
  - destruct (k' =? k)%string eqn:E; simpl; now rewrite E.
Qed.

Lemma obj_get_delete_same {A : Type} (o : list (string * A)) (k : string) :
  obj_get (obj_delete o k) k = None.
Proof.
  induction o as [|[k' v'] o IH]; simpl; [reflexivity|].
  destruct (k' =? k)%string eqn:E; simpl; [assumption|now rewrite E].
Qed.

Lemma obj_set_Forall {A : Type} (P : string * A -> Prop)
  (o : list (string * A)) (k : string) (v : A) :
  Forall P o -> (forall k', P (k', v)) -> Forall P (obj_set o k v).
Proof.
  intros Ho Hv. induction Ho as [|[k' v'] o Hx Ho IH]; simpl.
  - constructor; auto.
  - destruct (k' =? k)%string; constructor; auto.
Qed.

Lemma obj_assign_Forall (P : Value -> Prop) (o : list (string * Value))
  (i : string) (v : Value) :
  Forall (fun kv => P (snd kv)) o -> P v ->
  Forall (fun kv => P (snd kv)) (obj_assign o i v).
Proof.
  intros Ho Hv. unfold obj_assign.
  destruct (i =? "__proto__")%string; [assumption|].
  apply obj_set_Forall; auto.
Qed.

Lemma obj_set_names {A : Type} (o : list (string * A)) (k x : string) (v : A) :
  existsb (String.eqb x) (map fst (obj_set o k v))
  = existsb (String.eqb x) (map fst o) || (x =? k)%string.
Proof.
  induction o as [|[k' v'] o IH]; simpl.
  - now rewrite orb_false_r.
  - destruct (String.eqb_spec k' k) as [->|_]; simpl.
    + destruct (x =? k)%string; simpl; [reflexivity|].
      now rewrite orb_false_r.
    + rewrite IH. now rewrite orb_assoc.
Qed.

Lemma obj_assign_names (o : list (string * Value)) (i : string) (v : Value) :
  existsb (String.eqb "__proto__") (map fst o) = false ->
  existsb (String.eqb "__proto__") (map fst (obj_assign o i v)) = false.
Proof.
  intros H. unfold obj_assign.
  destruct (i =? "__proto__")%string eqn:E; [assumption|].
  rewrite obj_set_names, H. now rewrite String.eqb_sym, E.
Qed.

(** ** The serializer on storable values *)

Lemma serialize_array_unfold (l : list Value) :
  _serialize_value (VArray l) = serialize_array_loop l [].
Proof. reflexivity. Qed.

Lemma serialize_object_unfold (m : list (string * Value)) :
  _serialize_value (VObject m) = serialize_object_loop m m [].
Proof. reflexivity. Qed.

Lemma serialize_array_loop_ok (l result : list Value) :
  Forall (fun v => _serialize_value v = Ok (document v)) l ->
  serialize_array_loop l result
  = Ok (node "array" (VArray (result ++ map document l))).
Proof.
  intros H. revert result.
  induction H as [|x l Hx _ IH]; intros result; simpl.
  - now rewrite app_nil_r.
  - rewrite Hx. simpl. rewrite IH. now rewrite <- app_assoc.
Qed.

Lemma obj_get_absent {A : Type} (o : list (string * A)) (k : string) :
  existsb (String.eqb k) (map fst o) = false -> obj_get o k = None.
Proof.
  induction o as [|[k' v'] o IH]; simpl; [reflexivity|].
  rewrite orb_false_iff. intros [Hk Ho].
  rewrite String.eqb_sym, Hk. auto.
Qed.

Lemma has_own_member {A : Type} (o : list (string * A)) (kv : string * A) :
  In kv o -> has_own o (fst kv) = true.
Proof.
  unfold has_own. induction o as [|[k' v'] o IH]; simpl; [contradiction|].
  intros [<-|H]; simpl.
  - now rewrite String.eqb_refl.
  - destruct (k' =? fst kv)%string; [reflexivity|auto].
Qed.

Lemma distinct_app_head (l l' : list string) (k : string) :
  distinct (l ++ k :: l') = true -> existsb (String.eqb k) l = false.
Proof.
  induction l as [|x l IH]; [reflexivity|].
  simpl. intros Hd. apply andb_true_iff in Hd as [Hx Hl].
  rewrite IH by assumption. apply negb_true_iff in Hx.
  rewrite existsb_app in Hx. apply orb_false_iff in Hx as [_ Hx].
  simpl in Hx. apply orb_false_iff in Hx as [Hx _].
  now rewrite String.eqb_sym, Hx.
Qed.

Lemma serialize_object_loop_ok (object m result : list (string * Value)) :
  obj_get object "hasOwnProperty" = None ->
  Forall (fun kv => has_own object (fst kv) = true) m ->
  Forall (fun kv => _serialize_value (snd kv) = Ok (document (snd kv))) m ->
  distinct (map fst result ++ map fst m) = true ->
  existsb (String.eqb "__proto__") (map fst m) = false ->
  serialize_object_loop object m result
  = Ok (node "object"
          (VObject (result ++ map (fun kv => (fst kv, document (snd kv))) m))).
Proof.
  intros Hh Ho H. revert result Ho.
  induction H as [|[k v] m Hx _ IH]; intros result Ho Hd Hp; simpl.
  - now rewrite app_nil_r.
  - inversion Ho as [|? ? Hk Ho']; subst. simpl in Hk, Hx.
    unfold call_hasOwnProperty. rewrite Hh, Hk. simpl. rewrite Hx. simpl.
    cbn [map fst existsb] in Hp. apply orb_false_iff in Hp as [Hpk Hp].
    unfold obj_assign. rewrite String.eqb_sym, Hpk.
    rewrite obj_set_fresh by (eapply distinct_app_head; eassumption).
    rewrite IH; try assumption.
    + now rewrite <- app_assoc.
    + rewrite map_app. simpl. now rewrite <- app_assoc.
Qed.

Lemma plain_names_spec (m : list (string * Value)) :
  plain_names (map fst m) = true ->
  distinct (map fst m) = true
  /\ obj_get m "hasOwnProperty" = None
  /\ existsb (String.eqb "__proto__") (map fst m) = false.
Proof.
  unfold plain_names. rewrite !andb_true_iff, !negb_true_iff.
  intros [[Hd Hh] Hp]. repeat split; try assumption.
  now apply obj_get_absent.
Qed.

Lemma serialize_storable (v : Value) :
  storable v = true -> _serialize_value v = Ok (document v).
Proof.
  induction v as [v Hv|l IH|m IH] using Value_nested_ind; intros Hs.
  - destruct v; try reflexivity; try discriminate; contradiction.
  - rewrite serialize_array_unfold, serialize_array_loop_ok; [reflexivity|].
    simpl in Hs. rewrite forallb_forall in Hs.
    rewrite Forall_forall in *. auto.
  - simpl in Hs. apply andb_true_iff in Hs as [Hn Hs].
    apply plain_names_spec in Hn as [Hd [Hh Hp]].
    rewrite serialize_object_unfold, serialize_object_loop_ok;
      try assumption; try reflexivity.
    + apply Forall_forall. intros kv. apply has_own_member.
    + rewrite forallb_forall in Hs. rewrite Forall_forall in *. auto.
Qed.

(** ** The deserializer on documents *)

Section Deserializer_facts.

Variable host : Host.

Lemma deserialize_array_unfold (l : list Value) :
  _deserialize_value host (VArray l) (VString "array")
  = deserialize_array_loop host l [].
Proof. reflexivity. Qed.

Lemma deserialize_object_unfold (m : list (string * Value)) :
  _deserialize_value host (VObject m) (VString "object")
  = deserialize_object_loop host m [].
Proof. reflexivity. Qed.

Lemma deserialize_undefined (type : Value) :
  _deserialize_value host VUndefined type = deserialize_absent host type.
Proof.
  unfold deserialize_absent. simpl.
  destruct (property_key host type) as [key|e]; [|reflexivity]. simpl.
  destruct (functionTable key) as [[]|]; reflexivity.
Qed.

(** What [deserialize_item] passes on is [item['value']] and
    [item['type']]. *)
Lemma deserialize_item_object (m : list (string * Value)) :
  _check_serialized host (VObject m) = Ok true ->
  deserialize_item host (_deserialize_value host) (VObject m)
  = _deserialize_value host (obj_read m "value") (obj_read m "type").
Proof.
  intros Hc. unfold deserialize_item. rewrite Hc.
  cbn [bind].
  generalize (obj_read m "type"). intros type.
  unfold obj_read. clear Hc.
  induction m as [|[k v] m IH].
  - symmetry. apply deserialize_undefined.
  - cbn [obj_get]. destruct (k =? "value")%string; [reflexivity|exact IH].
Qed.

Lemma document_checked (v : Value) :
  storable v = true ->
  _check_serialized host (document v) = Ok true
  /\ exists m, document v = VObject m.
Proof.
  destruct v as [| |s|n|b|t|l|m| | | | |]; try discriminate; intros _;
    try (split; [reflexivity|eexists; reflexivity]).
  destruct n; (split; [reflexivity|eexists; reflexivity]).
Qed.

Lemma deserialize_item_document (v : Value) :
  storable v = true ->
  deserialize_item host (_deserialize_value host) (document v)
  = _deserialize_value host (doc_payload (document v)) (doc_type (document v)).
Proof.
  intros Hs. destruct (document_checked v Hs) as [Hc [m Hm]].
  rewrite Hm in *. now apply deserialize_item_object.
Qed.

(** An item of a loop that fails the check is refused, whatever the
    deserializer would do with it. *)
Lemma deserialize_item_checked (rec : Value -> Value -> Result Value)
  (item : Value) (e : Error) :
  item <> VUndefined -> item <> VNull ->
  _check_serialized host item = Raise e ->
  deserialize_item host rec item = Raise e.
Proof.
  intros Hu Hn Hc. unfold deserialize_item.
  destruct item; try congruence; now rewrite Hc.
Qed.

Lemma string_to_number_Z (x : Z) :
  Z.abs x <= 2 ^ 53 ->
  string_to_number host (Z_to_string x) = Fin x.
Proof.
  intros Hx. unfold string_to_number.
  pose proof (Z_of_string_to_string x) as H.
  destruct (String.eqb_spec (Z_to_string x) "Infinity") as [E|_];
    [rewrite E in H; discriminate H|].
  destruct (String.eqb_spec (Z_to_string x) "-Infinity") as [E|_];
    [rewrite E in H; discriminate H|].
  destruct (String.eqb_spec (Z_to_string x) "NaN") as [E|_];
    [rewrite E in H; discriminate H|].
  rewrite H. apply Z.leb_le in Hx. rewrite Hx.
  destruct (Z.eqb_spec x 0) as [->|_]; reflexivity.
Qed.

End Deserializer_facts.

Section Round_trip.

Variable host : Host.

Let read_back (v : Value) : Result Value :=
  _deserialize_value host (doc_payload (document v)) (doc_type (document v)).

Lemma deserialize_array_loop_ok (l result : list Value) :
  Forall (fun v => storable v = true -> read_back v = Ok v) l ->
  forallb storable l = true ->
  deserialize_array_loop host (map document l) result
  = Ok (VArray (result ++ l)).
Proof.
  intros H. revert result.
  induction H as [|x l Hx _ IH]; intros result Hs; simpl.
  - now rewrite app_nil_r.
  - simpl in Hs. apply andb_true_iff in Hs as [Hsx Hsl].
    rewrite deserialize_item_document by assumption.
    fold (read_back x). rewrite Hx by assumption. simpl.
    rewrite IH by assumption. now rewrite <- app_assoc.
Qed.

Lemma deserialize_object_loop_ok (m result : list (string * Value)) :
  Forall (fun kv => storable (snd kv) = true -> read_back (snd kv) = Ok (snd kv)) m ->
  forallb (fun kv => storable (snd kv)) m = true ->
  distinct (map fst result ++ map fst m) = true ->
  existsb (String.eqb "__proto__") (map fst m) = false ->
  deserialize_object_loop host
    (map (fun kv => (fst kv, document (snd kv))) m) result
  = Ok (VObject (result ++ m)).
Proof.
  intros H. revert result.
  induction H as [|[k v] m Hx _ IH]; intros result Hs Hd Hp.
  - simpl. now rewrite app_nil_r.
  - cbn [map fst snd forallb existsb] in Hs, Hx, Hp.
    apply andb_true_iff in Hs as [Hsx Hsl].
    apply orb_false_iff in Hp as [Hpk Hp].
    cbn [map fst snd deserialize_object_loop].
    rewrite deserialize_item_document by assumption.
    fold (read_back v). rewrite Hx by assumption. cbn [bind].
    unfold assign_member. rewrite String.eqb_sym, Hpk. cbn [bind].
    rewrite obj_set_fresh by (eapply distinct_app_head; eassumption).
    fold (deserialize_object_loop host).
    rewrite IH; [now rewrite <- app_assoc|assumption| |assumption].
    rewrite map_app. simpl. now rewrite <- app_assoc.
Qed.

Lemma read_back_storable (v : Value) :
  storable v = true -> read_back v = Ok v.
Proof.
  induction v as [v Hv|l IH|m IH] using Value_nested_ind; intros Hs.
  - destruct v as [| |s|n|b|t|l|m| | | | |];
      try reflexivity; try discriminate; try contradiction.
    + destruct n; try reflexivity; discriminate Hs.
    + destruct b; reflexivity.
    + destruct t as [t|]; [|reflexivity].
      simpl in Hs. unfold read_back. simpl.
      unfold _deserialize_date, to_number.
      rewrite string_to_number_Z by (apply Z.leb_le in Hs; lia).
      cbn [bind]. unfold new_Date, truncate, time_clip. now rewrite Hs.
  - change (read_back (VArray l))
      with (_deserialize_value host (VArray (map document l)) (VString "array")).
    rewrite deserialize_array_unfold.
    now rewrite deserialize_array_loop_ok.
  - change (read_back (VObject m))
      with (_deserialize_value host
              (VObject (map (fun kv => (fst kv, document (snd kv))) m))
              (VString "object")).
    rewrite deserialize_object_unfold.
    simpl in Hs. apply andb_true_iff in Hs as [Hn Hs].
    apply plain_names_spec in Hn as [Hd [_ Hp]].
    now rewrite deserialize_object_loop_ok.
Qed.

Lemma deserialize_document (v : Value) :
  storable v = true -> deserialize host (document v) = Ok v.
Proof.
  intros Hs. destruct (document_checked host v Hs) as [_ [m Hm]].
  pose proof (read_back_storable v Hs) as H. unfold read_back in H.
  rewrite Hm in *. exact H.
Qed.

(** [Ext.JSON] gives the document of a storable value back as it is. *)
Lemma json_image_document (v : Value) :
  storable v = true -> json_image (document v) = document v.
Proof.
  induction v as [v Hv|l IH|m IH] using Value_nested_ind; intros Hs.
  - destruct v as [| |s|n|b|t|l|m| | | | |];
      try reflexivity; try discriminate; try contradiction.
    destruct n; try reflexivity; discriminate Hs.
  - simpl in Hs. simpl. rewrite map_map.
    assert (E : map (fun x => json_image (document x)) l = map document l).
    { apply map_ext_in. intros x Hx.
      rewrite Forall_forall in IH. rewrite forallb_forall in Hs. auto. }
    now rewrite E.
  - simpl in Hs. apply andb_true_iff in Hs as [_ Hs].
    simpl. rewrite map_map.
    assert (E : map (fun kv => (fst (fst kv, document (snd kv)),
                                json_image (snd (fst kv, document (snd kv))))) m
                = map (fun kv => (fst kv, document (snd kv))) m).
    { apply map_ext_in. intros kv Hkv. simpl. f_equal.
      rewrite Forall_forall in IH. rewrite forallb_forall in Hs. auto. }
    now rewrite E.
Qed.

End Round_trip.

(** Round trip: for every storable value [v] the serializer returns a
    document, and deserializing that document returns [v] itself: the same
    variant with the same content, a date with the same time value and NaN
    as NaN. *)
Lemma round_trip_storable (host : Host) (v : Value) :
  storable v = true ->
  exists s, _serialize_value v = Ok s /\ deserialize host s = Ok v.
Proof.
  intros Hs. exists (document v). split.
  - now apply serialize_storable.
  - now apply deserialize_document.
Qed.

Lemma round_trip_storable_example :
  storable sample_value = true
  /\ exists s, _serialize_value sample_value = Ok s
               /\ deserialize plain_host s = Ok sample_value.
Proof.
  split; [reflexivity|].
  apply (round_trip_storable plain_host sample_value).
  reflexivity.
Defined.

(** C1. The round trip fails on an object of storable values that has a
    member named [hasOwnProperty]: the serializer calls
    [object.hasOwnProperty(i)] on the object itself, the member is a
    number and no function, and a TypeError is raised, so that there is
    no document to read back.  A member named [__proto__] is lost: the
    document is read back as the object without it. *)
Theorem serialize_own_hasOwnProperty_raises (host : Host) :
  supported (VObject [("hasOwnProperty", VNumber (Fin 1))]) = true
  /\ _serialize_value (VObject [("hasOwnProperty", VNumber (Fin 1))])
     = Raise TypeError
  /\ exists doc,
      _serialize_value
        (VObject [("a", VNumber (Fin 1)); ("__proto__", VNumber (Fin 2))])
      = Ok doc
      /\ deserialize host doc = Ok (VObject [("a", VNumber (Fin 1))]).
Proof. repeat split. eexists. split; reflexivity. Qed.

(** C8. The encoding of numbers: NaN, +Infinity and -Infinity are
    serialized as a number node whose payload is the string "NaN",
    "Infinity" or "-Infinity"; every finite number, an integer, a
    fraction or -0, is serialized as a number node whose payload is the
    number itself.  Deserializing a number node maps these three strings
    to the three non-finite numbers, a numeric payload to itself, and any
    payload to its numeric value, with the exception the conversion to a
    number raises, if any. *)
Theorem number_encoding (host : Host) :
  _serialize_number NaN = node "number" (VString "NaN")
  /\ _serialize_number PosInf = node "number" (VString "Infinity")
  /\ _serialize_number NegInf = node "number" (VString "-Infinity")
  /\ (forall x, _serialize_number (Fin x) = node "number" (VNumber (Fin x)))
  /\ (forall m e,
        _serialize_number (Frac m e) = node "number" (VNumber (Frac m e)))
  /\ _serialize_number NegZero = node "number" (VNumber NegZero)
  /\ _deserialize_number host (VString "NaN") = Ok (VNumber NaN)
  /\ _deserialize_number host (VString "Infinity") = Ok (VNumber PosInf)
  /\ _deserialize_number host (VString "-Infinity") = Ok (VNumber NegInf)
  /\ (forall n, _deserialize_number host (VNumber n) = Ok (VNumber n))
  /\ (forall payload,
        _deserialize_number host payload
        = do n <- to_number host payload; Ok (VNumber n)).
Proof.
  repeat split; try reflexivity.
  intros payload. destruct payload; try reflexivity.
  unfold _deserialize_number, to_number, string_to_number.
  destruct (String.eqb_spec s "-Infinity") as [->|_]; [reflexivity|].
  destruct (String.eqb_spec s "Infinity") as [->|_]; [reflexivity|].
  destruct (String.eqb_spec s "NaN") as [->|_]; reflexivity.
Qed.

(** ** Validation in [set] *)

(** An exception of the four opening checks leaves the cache as it was. *)
Lemma set_check_input_raises (me : Cache) (now : Z) (key value expires : Value)
  (e : Error) :
  check_input key value expires = Raise e ->
  set me now key value expires = (me, Raise e).
Proof. intros H. unfold set. now rewrite H. Qed.

(** C2. At a Web Storage cache that holds an entry under "k",
    [set("k", [function])] raises "Invalid value type" from the serializer
    after [remove] has run: the entry under "k" is gone. *)
Theorem set_nested_unsupported_removes_entry :
  set cache_with_k 0 (VString "k") (VArray [VFunction]) VUndefined
  = (web_cache default_prefix [], Raise (InvalidValueType "function")).
Proof. reflexivity. Qed.

(** C7. The top-level node is not checked: the stored document
    [{"type": "string"}], which lacks its payload, is read back as the
    string "undefined", with no exception; [has] answers true and [get]
    returns [undefined]. *)
Theorem thaw_unchecked_top_level (host : Host) :
  let me := web_cache default_prefix
              [("Ext.ux.Cache.k", VObject [("type", VString "string")])] in
  _check_serialized host (VObject [("type", VString "string")])
  = Raise InvalidSerializedValue
  /\ _fetch_value host me "k" = Ok (VString "undefined")
  /\ has host me "k" = Ok true
  /\ get host me 0 "k" = (me, Ok VUndefined).
Proof. repeat split. Qed.

(** C3. A foreign key that contains the prefix after its first character
    is listed by [keys] under the suffix that follows the prefix, although
    no key of this cache is stored. *)
Theorem keys_lists_foreign_key :
  let me := web_cache default_prefix
              [("App.Ext.ux.Cache.a", VString "foreign")] in
  String.prefix default_prefix "App.Ext.ux.Cache.a" = false
  /\ keys me = Ok ["a"]
  /\ obj_get [("App.Ext.ux.Cache.a", VString "foreign")]
       (default_prefix ++ "a") = None.
Proof. repeat split. Qed.

(** ** What the serializer wrote can be read *)

Section Readable.

Variable host : Host.

Lemma readable_array_loop (l result : list Value) :
  Forall (readable host) l ->
  exists r, deserialize_array_loop host (map json_image l) result = Ok r.
Proof.
  intros H. revert result.
  induction H as [|d l [x Hx] _ IH]; intros result; simpl.
  - eexists; reflexivity.
  - rewrite Hx. simpl. apply IH.
Qed.

Lemma readable_object_loop (m result : list (string * Value)) :
  Forall (fun kv => readable host (snd kv)) m ->
  existsb (String.eqb "__proto__") (map fst m) = false ->
  exists r,
    deserialize_object_loop host
      (map (fun kv => (fst kv, json_image (snd kv))) m) result = Ok r.
Proof.
  intros H. revert result.
  induction H as [|[k d] m [x Hx] _ IH]; intros result Hp.
  - eexists; reflexivity.
  - cbn [map fst snd existsb] in Hp, Hx |- *.
    apply orb_false_iff in Hp as [Hpk Hp].
    cbn [deserialize_object_loop]. rewrite Hx. cbn [bind].
    unfold assign_member. rewrite String.eqb_sym, Hpk. cbn [bind].
    now apply IH.
Qed.

Lemma readable_array (result : list Value) :
  Forall (readable host) result -> readable host (node "array" (VArray result)).
Proof.
  intros H. unfold readable.
  change (json_image (node "array" (VArray result)))
    with (VObject [("type", VString "array");
                   ("value", VArray (map json_image result))]).
  rewrite deserialize_item_object by reflexivity.
  change (exists x, _deserialize_value host (VArray (map json_image result))
                      (VString "array") = Ok x).
  rewrite deserialize_array_unfold. now apply readable_array_loop.
Qed.

Lemma readable_object (result : list (string * Value)) :
  Forall (fun kv => readable host (snd kv)) result ->
  existsb (String.eqb "__proto__") (map fst result) = false ->
  readable host (node "object" (VObject result)).
Proof.
  intros H Hp. unfold readable.
  change (json_image (node "object" (VObject result)))
    with (VObject [("type", VString "object");
                   ("value",
                    VObject (map (fun kv => (fst kv, json_image (snd kv)))
                               result))]).
  rewrite deserialize_item_object by reflexivity.
  change (exists x,
             _deserialize_value host
               (VObject (map (fun kv => (fst kv, json_image (snd kv))) result))
               (VString "object") = Ok x).
  rewrite deserialize_object_unfold. now apply readable_object_loop.
Qed.

Lemma serialize_array_loop_readable (l result : list Value) (d : Value) :
  Forall (fun v => forall d, _serialize_value v = Ok d -> readable host d) l ->
  Forall (readable host) result ->
  serialize_array_loop l result = Ok d -> readable host d.
Proof.
  intros H. revert result.
  induction H as [|v l Hv _ IH]; intros result Hr; simpl.
  - intros [= <-]. now apply readable_array.
  - destruct (_serialize_value v) as [s|e] eqn:E; simpl; [|discriminate].
    apply IH. apply Forall_app. split; [assumption|].
    constructor; [|constructor]. now apply Hv.
Qed.

Lemma serialize_object_loop_readable (object m result : list (string * Value))
  (d : Value) :
  Forall (fun kv =>
            forall d, _serialize_value (snd kv) = Ok d -> readable host d) m ->
  Forall (fun kv => readable host (snd kv)) result ->
  existsb (String.eqb "__proto__") (map fst result) = false ->
  serialize_object_loop object m result = Ok d -> readable host d.
Proof.
  intros H. revert result.
  induction H as [|[k v] m Hv _ IH]; intros result Hr Hp; simpl.
  - intros [= <-]. now apply readable_object.
  - destruct (call_hasOwnProperty object k) as [[|]|e]; simpl;
      try discriminate.
    + destruct (_serialize_value v) as [s|e] eqn:E; simpl; [|discriminate].
      apply IH.
      * apply obj_assign_Forall; [assumption|]. now apply Hv.
      * now apply obj_assign_names.
    + now apply IH.
Qed.

(** Whatever the serializer returns, the deserializer reads without an
    exception. *)
Lemma serialize_readable (v : Value) :
  forall d, _serialize_value v = Ok d -> readable host d.
Proof.
  induction v as [v Hv|l IH|m IH] using Value_nested_ind; intros d.
  - destruct v as [| |s|n|b|t|l|m| | | | |]; try contradiction;
      try discriminate; intros [= <-]; try (eexists; reflexivity).
    + destruct n; eexists; reflexivity.
    + destruct b; eexists; reflexivity.
  - rewrite serialize_array_unfold.
    apply serialize_array_loop_readable; [assumption|constructor].
  - rewrite serialize_object_unfold.
    apply serialize_object_loop_readable;
      [assumption|constructor|reflexivity].
Qed.

Lemma deserialize_item_storable (v : Value) :
  storable v = true ->
  deserialize_item host (_deserialize_value host) (json_image (document v))
  = Ok v.
Proof.
  intros Hs. rewrite json_image_document by assumption.
  rewrite deserialize_item_document by assumption.
  now apply read_back_storable.
Qed.

End Readable.

(** ** Reading an entry back *)

Lemma check_input_key (key value expires : Value) (k : string) :
  check_input key value expires = Ok k -> key = VString k /\ k <> "".
Proof.
  unfold check_input. destruct key as [| |s| | | | | | | | | |]; try discriminate.
  destruct (String.eqb_spec s "") as [->|Hs]; [discriminate|].
  destruct value; try discriminate;
    repeat match goal with
      | |- context [if ?b then _ else _] => destruct b; try discriminate
      | |- context [match expires with _ => _ end] =>
          destruct expires; try discriminate
      end;
    intros [= ->]; auto.
Qed.

Lemma check_input_expires (key value expires : Value) (k : string) :
  check_input key value expires = Ok k -> valid_expires expires = true.
Proof.
  intros H. destruct (valid_expires expires) eqn:E; [reflexivity|].
  exfalso. unfold check_input in H.
  destruct key; try discriminate.
  destruct (_ =? "")%string; try discriminate.
  assert (Hx : negb (isNumber expires) && negb (isDate expires) = true).
  { destruct expires as [| |s'|n|b|t|l|m| | | | |]; try discriminate;
      try reflexivity.
    destruct n; try discriminate; reflexivity. }
  assert (Hu : expires <> VUndefined) by (intros ->; discriminate).
  destruct value; try discriminate;
    try (destruct (unsupported _); try discriminate);
    destruct expires; try congruence; rewrite Hx in H; discriminate.
Qed.

Section Facade_facts.

Variable host : Host.

Lemma storable_new_Date (n : Number) : storable (VDate (new_Date n)) = true.
Proof.
  unfold new_Date. destruct (truncate n) as [x|]; [|reflexivity].
  unfold time_clip. destruct (Z.abs x <=? 8640000000000000) eqn:E; simpl; auto.
Qed.


Lemma storable_entry (value exp : Value) :
  storable value = true -> storable exp = true ->
  storable (entry value exp) = true.
Proof.
  intros Hv He.
  change (storable (entry value exp))
    with (true && (storable value && (storable exp && true))).
  now rewrite Hv, He.
Qed.

Lemma serialize_entry (value exp : Value) :
  _serialize_value (entry value exp)
  = do dv <- _serialize_value value;
    do de <- _serialize_value exp;
    Ok (node "object" (VObject [("value", dv); ("expires", de)])).
Proof. reflexivity. Qed.

Lemma deserialize_entry (dv de : Value) :
  deserialize host
    (json_image (node "object" (VObject [("value", dv); ("expires", de)])))
  = do x <- deserialize_item host (_deserialize_value host) (json_image dv);
    do e <- deserialize_item host (_deserialize_value host) (json_image de);
    Ok (entry x e).
Proof. reflexivity. Qed.

Lemma fetch_removed_web (pfx : string) (w : list (string * Value))
  (key : string) :
  _fetch_value host (remove (web_cache pfx w) key) key = Ok VUndefined.
Proof.
  unfold _fetch_value, remove. simpl. now rewrite obj_get_delete_same.
Qed.



(** A [set] that returned has stored an entry that is fetched back with
    the expiration resolved at the time of the call, and with the value
    itself when the value is storable or the storage is the in-memory
    one. *)
Lemma fetch_after_set (me me' : Cache) (now : Z) (key value expires r : Value)
  (k : string) :
  check_input key value expires = Ok k ->
  set me now key value expires = (me', Ok r) ->
  storable (expiration now expires) = true ->
  exists x,
    _fetch_value host me' k = Ok (entry x (expiration now expires))
    /\ (storable value = true -> x = value)
    /\ (webStorage me = false -> x = value).
Proof.
  intros Hc Hset He. unfold set in Hset. rewrite Hc in Hset.
  destruct me as [pfx [m|w]]; unfold _freeze, remove, webStorage in Hset;
    cbn [storage keyPrefix removeItem setItem negb] in Hset.
  - injection Hset as <- _. exists value. split; [|auto].
    unfold _fetch_value. cbn [storage keyPrefix].
    unfold MemStorage.getItem, MemStorage.setItem. simpl.
    match goal with
    | |- context [obj_read (obj_set ?o ?k' ?v) ?k'] =>
        replace (obj_read (obj_set o k' v) k') with v
          by (unfold obj_read; now rewrite obj_get_set_same)
    end.
    reflexivity.
  - rewrite serialize_entry in Hset.
    destruct (_serialize_value value) as [dv|e] eqn:Ev; [|discriminate Hset].
    rewrite (serialize_storable _ He) in Hset. cbn [bind] in Hset.
    injection Hset as <- _.
    unfold _fetch_value. cbn [storage keyPrefix].
    rewrite obj_get_set_same. unfold _thaw, webStorage. cbn [storage negb].
    change (VObject _) with
      (json_image
         (node "object"
            (VObject [("value", dv);
                      ("expires", document (expiration now expires))]))).
    rewrite deserialize_entry.
    destruct (serialize_readable host value dv Ev) as [x Hx].
    rewrite Hx, (deserialize_item_storable host _ He). cbn [bind].
    exists x. split; [reflexivity|]. split; [|discriminate].
    intros Hs. rewrite (serialize_storable _ Hs) in Ev.
    injection Ev as <-.
    rewrite (deserialize_item_storable host _ Hs) in Hx. congruence.
Qed.

(** [set] returns for every storable value that passes the checks. *)
Lemma set_storable (me : Cache) (now : Z) (key value expires : Value)
  (k : string) :
  check_input key value expires = Ok k ->
  storable value = true ->
  storable (expiration now expires) = true ->
  exists me', set me now key value expires = (me', Ok value).
Proof.
  intros Hc Hv He. unfold set. rewrite Hc. cbv zeta.
  destruct (_freeze (remove me k) (entry value (expiration now expires)))
    as [frozen|e] eqn:F; [eexists; reflexivity|].
  exfalso. unfold _freeze in F.
  destruct (negb (webStorage (remove me k))); [discriminate|].
  rewrite (serialize_storable _ (storable_entry _ _ Hv He)) in F.
  discriminate.
Qed.

(** For a storable value the entry is fetched back as written. *)
Lemma fetch_after_set_storable (me : Cache) (now : Z)
  (key value expires : Value) (k : string) :
  check_input key value expires = Ok k ->
  storable value = true ->
  storable (expiration now expires) = true ->
  exists me',
    set me now key value expires = (me', Ok value)
    /\ _fetch_value host me' k = Ok (entry value (expiration now expires)).
Proof.
  intros Hc Hv He.
  destruct (set_storable me now key value expires k Hc Hv He) as [me' Hset].
  destruct (fetch_after_set me me' now key value expires value k Hc Hset He)
    as [x [Hf [Hx _]]].
  rewrite (Hx Hv) in Hf. now exists me'.
Qed.

End Facade_facts.

Lemma get_fetched (host : Host) (me : Cache) (now : Z) (key : string)
  (m : list (string * Value)) :
  _fetch_value host me key = Ok (VObject m) ->
  get host me now key
  = match expired host (obj_read m "expires") now with
    | Raise e => (me, Raise e)
    | Ok true => (remove me key, Ok VUndefined)
    | Ok false => (me, Ok (obj_read m "value"))
    end.
Proof. intros H. unfold get. now rewrite H. Qed.

Lemma expired_date (host : Host) (t now : Z) :
  expired host (VDate (Some t)) now = Ok (t <? now).
Proof. reflexivity. Qed.

Lemma has_spec (host : Host) (me : Cache) (key : string) :
  has host me key = Ok true
  <-> exists item, _fetch_value host me key = Ok item /\ item <> VUndefined.
Proof.
  unfold has. split.
  - destruct (_fetch_value host me key) as [item|e]; simpl; [|discriminate].
    intros H. exists item. split; [reflexivity|].
    intros ->. discriminate H.
  - intros [item [-> Hi]]. simpl. destruct item; congruence.
Qed.



(** C5. [has] is true exactly when the fetch under the prefixed key finds
    an entry, and no expiration is tested.  A [set] with an expiration
    date [t] that lies before [now] returns for every storable value, and
    after any such [set] that returned, whatever the value, the fetch
    finds the entry and [has] answers true, although [get] at [now]
    removes the entry and returns [undefined]. *)
Theorem has_skips_expiration_check (host : Host) (me : Cache)
  (now0 now : Z) (k : string) (value : Value) (t : Z) :
  check_input (VString k) value (VDate (Some t)) = Ok k ->
  Z.abs t <= 8640000000000000 ->
  t < now ->
  (forall c key',
      has host c key' = Ok true
      <-> exists item, _fetch_value host c key' = Ok item /\ item <> VUndefined)
  /\ (storable value = true ->
      exists me',
        set me now0 (VString k) value (VDate (Some t)) = (me', Ok value))
  /\ (forall me',
        set me now0 (VString k) value (VDate (Some t)) = (me', Ok value) ->
        (exists x, _fetch_value host me' k = Ok (entry x (VDate (Some t))))
        /\ has host me' k = Ok true
        /\ get host me' now k = (remove me' k, Ok VUndefined)).
Proof.
  intros Hc Ht Hlt. split; [intros c key'; apply has_spec|].
  assert (He : storable (expiration now0 (VDate (Some t))) = true)
    by (simpl; lia).
  split; [intros Hv; now apply (set_storable me now0 _ value _ k)|].
  intros me' Hset.
  destruct (fetch_after_set host me me' now0 _ value _ value k Hc Hset He)
    as [x [Hf _]].
  cbn [expiration] in Hf. split; [now exists x|]. split.
  - apply has_spec. eexists. split; [eassumption|discriminate].
  - unfold entry in Hf. rewrite (get_fetched host me' now k _ Hf).
    change (obj_read _ "expires") with (VDate (Some t)).
    rewrite expired_date. apply Z.ltb_lt in Hlt. now rewrite Hlt.
Qed.

Lemma has_skips_expiration_check_witness :
  let me := web_cache default_prefix [] in
  let value := VObject [("a", VNumber (Frac 1 2)); ("b", VArray [VUndefined])] in
  let me' := fst (set me 1000 (VString "k") value (VDate (Some 999))) in
  (exists x, _fetch_value plain_host me' "k" = Ok (entry x (VDate (Some 999))))
  /\ has plain_host me' "k" = Ok true
  /\ get plain_host me' 1000 "k" = (remove me' "k", Ok VUndefined).
Proof.
  destruct (has_skips_expiration_check plain_host
              (web_cache default_prefix []) 1000 1000 "k"
              (VObject [("a", VNumber (Frac 1 2)); ("b", VArray [VUndefined])])
              999) as [_ [_ H]]; [reflexivity|lia|lia|].
  apply H. reflexivity.
Defined.



(** For an array or an object [v] of storable values, which may hold
    [undefined] as an element or a member at any depth, [set] returns and
    a later [get] returns [v] itself, its [undefined] elements and members
    included; [set(key, undefined)] raises and leaves the cache as it
    was. *)
Lemma undefined_kept_inside_storable (host : Host) (me : Cache)
  (now now' : Z) (k : string) (expires v : Value) :
  k <> "" ->
  is_structure v = true ->
  storable v = true ->
  set me now (VString k) VUndefined expires = (me, Raise InvalidValue)
  /\ exists me',
      set me now (VString k) v VUndefined = (me', Ok v)
      /\ get host me' now' k = (me', Ok v).
Proof.
  intros Hk Hstr Hv.
  apply String.eqb_neq in Hk.
  split.
  - apply set_check_input_raises. simpl. now rewrite Hk.
  - assert (Hc : check_input (VString k) v VUndefined = Ok k).
    { simpl. rewrite Hk. destruct v; try discriminate; reflexivity. }
    destruct (set_storable me now _ v _ k Hc Hv eq_refl) as [me' Hset].
    destruct (fetch_after_set host me me' now _ v _ v k Hc Hset eq_refl)
      as [x [Hf [Hx _]]].
    rewrite (Hx Hv) in Hf.
    exists me'. split; [assumption|].
    cbn [expiration] in Hf. unfold entry in Hf.
    now rewrite (get_fetched host me' now' k _ Hf).
Qed.

(** C9. A nested [undefined] is not always kept: at a Web Storage cache
    that holds an entry under "k", [set("k", {hasOwnProperty: undefined})],
    an object of a supported type whose one member is [undefined], passes
    the checks and removes the old entry, and then the serializer raises
    a TypeError, calling the member as [object.hasOwnProperty(i)]: nothing
    is stored, and [get("k")] returns [undefined]. *)
Theorem set_undefined_member_raises (host : Host) :
  let v := VObject [("hasOwnProperty", VUndefined)] in
  is_structure v = true
  /\ supported v = true
  /\ check_input (VString "k") v VUndefined = Ok "k"
  /\ set cache_with_k 0 (VString "k") v VUndefined
     = (web_cache default_prefix [], Raise TypeError)
  /\ get host (web_cache default_prefix []) 0 "k"
     = (web_cache default_prefix [], Ok VUndefined).
Proof. repeat split. Qed.

(** ** The in-memory storage *)

Lemma obj_get_In {A : Type} (o : list (string * A)) (k : string) (v : A) :
  obj_get o k = Some v -> In k (obj_keys o).
Proof.
  induction o as [|[k' v'] o IH]; simpl; [discriminate|].
  destruct (String.eqb_spec k' k) as [->|_]; auto.
Qed.

Lemma obj_get_not_In {A : Type} (o : list (string * A)) (k : string) :
  obj_get o k = None <-> ~ In k (obj_keys o).
Proof.
  induction o as [|[k' v'] o IH]; simpl; [tauto|].
  destruct (String.eqb_spec k' k) as [->|Hn].
  - split; [discriminate|]. intros H. exfalso. auto.
  - rewrite IH. tauto.
Qed.

Lemma truthy_read_present (o : list (string * Value)) (k : string) :
  Forall (fun kv => truthy (snd kv) = true) o ->
  truthy (obj_read o k) = true <-> In k (obj_keys o).
Proof.
  intros Ht. unfold obj_read. split.
  - destruct (obj_get o k) as [v|] eqn:E; [|discriminate].
    intros _. eapply obj_get_In; eassumption.
  - induction Ht as [|[k' v'] o Hv _ IH]; simpl; [tauto|].
    destruct (String.eqb_spec k' k) as [->|Hn]; [auto|].
    intros [H|H]; [contradiction|auto].
Qed.

Lemma not_In_existsb (l : list string) (k : string) :
  ~ In k l -> existsb (String.eqb k) l = false.
Proof.
  intros H. destruct (existsb (String.eqb k) l) eqn:E; [|reflexivity].
  apply existsb_exists in E as [x [Hx Hk]].
  apply String.eqb_eq in Hk. now subst.
Qed.

Lemma obj_keys_set_present {A : Type} (o : list (string * A)) (k : string)
  (v : A) :
  In k (obj_keys o) -> obj_keys (obj_set o k v) = obj_keys o.
Proof.
  induction o as [|[k' v'] o IH]; simpl; [contradiction|].
  destruct (String.eqb_spec k' k) as [->|Hn]; [reflexivity|].
  intros [H|H]; [contradiction|]. simpl. now rewrite IH.
Qed.

Lemma obj_delete_absent {A : Type} (o : list (string * A)) (k : string) :
  ~ In k (obj_keys o) -> obj_delete o k = o.
Proof.
  induction o as [|[k' v'] o IH]; simpl; [reflexivity|].
  intros H. destruct (String.eqb_spec k' k) as [->|Hn]; [tauto|].
  rewrite IH; tauto.
Qed.

Lemma obj_keys_delete {A : Type} (o : list (string * A)) (k : string) :
  NoDup (obj_keys o) ->
  obj_keys (obj_delete o k) = MemStorage.array_remove (obj_keys o) k.
Proof.
  induction o as [|[k' v'] o IH]; simpl; [reflexivity|].
  intros H. inversion H as [|x l Hx Hl]; subst.
  destruct (String.eqb_spec k' k) as [->|Hn].
  - now rewrite obj_delete_absent.
  - simpl. now rewrite IH.
Qed.

Lemma obj_delete_Forall {A : Type} (P : string * A -> Prop)
  (o : list (string * A)) (k : string) :
  Forall P o -> Forall P (obj_delete o k).
Proof.
  intros Ho. induction Ho as [|[k' v'] o Hx Ho IH]; simpl; [constructor|].
  destruct (k' =? k)%string; [assumption|constructor; assumption].
Qed.

Lemma array_remove_In (l : list string) (k x : string) :
  In x (MemStorage.array_remove l k) -> In x l.
Proof.
  induction l as [|y l IH]; simpl; [tauto|].
  destruct (y =? k)%string; simpl; tauto.
Qed.

Lemma array_remove_NoDup (l : list string) (k : string) :
  NoDup l -> NoDup (MemStorage.array_remove l k).
Proof.
  induction 1 as [|y l Hy Hl IH]; simpl; [constructor|].
  destruct (y =? k)%string; [assumption|].
  constructor; [|assumption]. intros H. apply Hy.
  eapply array_remove_In; eassumption.
Qed.

Lemma array_remove_length (l : list string) (k : string) :
  In k l ->
  Z.of_nat (List.length (MemStorage.array_remove l k))
  = Z.of_nat (List.length l) - 1.
Proof.
  induction l as [|y l IH]; simpl List.length; [contradiction|].
  simpl MemStorage.array_remove.
  destruct (String.eqb_spec y k) as [->|Hn]; [lia|].
  intros [H|H]; [contradiction|]. simpl List.length.
  specialize (IH H). lia.
Qed.

Lemma aligned_setItem (me : MemStorage.t) (k : string) (value : Value) :
  truthy value = true -> aligned me -> aligned (MemStorage.setItem me k value).
Proof.
  intros Hv [Hk [Hn [Hl Ht]]]. unfold MemStorage.setItem.
  destruct (truthy (obj_read (MemStorage.items me) k)) eqn:E; simpl.
  - apply (truthy_read_present _ _ Ht) in E.
    repeat split; simpl.
    + now rewrite obj_keys_set_present.
    + assumption.
    + assumption.
    + apply obj_set_Forall; auto.
  - assert (Hin : ~ In k (obj_keys (MemStorage.items me))).
    { intros H. apply (truthy_read_present _ _ Ht) in H. congruence. }
    rewrite obj_set_fresh by now apply not_In_existsb.
    repeat split; simpl.
    + unfold obj_keys in *. rewrite map_app. simpl. now rewrite Hk.
    + rewrite Hk in *. apply NoDup_app; [assumption|repeat constructor; auto|].
      intros x Hx [<-|[]]. auto.
    + rewrite length_app. simpl. lia.
    + apply Forall_app. split; [assumption|]. repeat constructor. assumption.
Qed.

Lemma aligned_removeItem (me : MemStorage.t) (k : string) :
  aligned me -> aligned (MemStorage.removeItem me k).
Proof.
  intros [Hk [Hn [Hl Ht]]]. unfold MemStorage.removeItem.
  destruct (truthy (obj_read (MemStorage.items me) k)) eqn:E; simpl;
    [|repeat split; assumption].
  apply (truthy_read_present _ _ Ht) in E.
  repeat split; simpl.
  - rewrite obj_keys_delete; [now rewrite Hk|now rewrite <- Hk].
  - now apply array_remove_NoDup.
  - rewrite array_remove_length; [lia|now rewrite Hk].
  - now apply obj_delete_Forall.
Qed.

(** X11. When every value given to [setItem] is truthy, as the entries of
    the cache are, and no key is a name that a plain object inherits, the
    invariant of the in-memory storage holds after every sequence of
    [setItem], [removeItem] and [clear]: [length] counts the stored keys
    and [keys] lists each of them once. *)
Lemma invariant_truthy_calls (cs : list MemStorage.call) :
  forallb truthy_call cs = true ->
  forallb ordinary_call cs = true ->
  MemStorage.invariant (MemStorage.run cs).
Proof.
  intros H _.
  assert (Ha : aligned (MemStorage.run cs)).
  { unfold MemStorage.run.
    assert (H0 : aligned MemStorage.empty)
      by (repeat split; simpl; constructor).
    revert H0. generalize MemStorage.empty.
    induction cs as [|c cs IH]; intros me Hme; simpl; [assumption|].
    simpl in H. apply andb_true_iff in H as [Hc Hcs].
    apply IH; [assumption|].
    destruct c as [k v| k|]; simpl.
    - now apply aligned_setItem.
    - now apply aligned_removeItem.
    - repeat split; simpl; constructor. }
  destruct Ha as [Hk [Hn [Hl _]]]. unfold MemStorage.invariant.
  rewrite <- Hk. repeat split; auto.
Qed.

(** C10. The presence test of [setItem] is a test of truthiness: after
    [setItem("k", "")] twice, the key is listed twice and [length] is 2,
    while one key is stored; the invariant of the storage is broken. *)
Theorem setItem_falsy_value_breaks_invariant :
  let me := MemStorage.run [MemStorage.SetItem "k" (VString "");
                            MemStorage.SetItem "k" (VString "")] in
  MemStorage.length me = 2
  /\ MemStorage.keys me = ["k"; "k"]
  /\ obj_keys (MemStorage.items me) = ["k"]
  /\ ~ MemStorage.invariant me.
Proof.
  repeat split. intros [H _]. discriminate H.
Qed.

(** ** [keys] and [clear] on a Web Storage *)

Lemma substring_all (s : string) : String.substring 0 (String.length s) s = s.
Proof. induction s as [|c s IH]; simpl; [reflexivity|now rewrite IH]. Qed.

Lemma prefix_append (p s : string) : String.prefix p (p ++ s) = true.
Proof.
  induction p as [|a p IH]; simpl; [now destruct s|].
  destruct (Ascii.ascii_dec a a); [assumption|contradiction].
Qed.

Lemma prefix_substr (p key : string) :
  String.prefix p key = true -> p ++ substr key (String.length p) = key.
Proof.
  revert key. induction p as [|a p IH]; intros key.
  - intros _. unfold substr. simpl. rewrite Nat.sub_0_r. apply substring_all.
  - destruct key as [|b key]; simpl; [discriminate|].
    destruct (Ascii.ascii_dec a b) as [->|]; [|discriminate].
    intros H. f_equal. apply (IH key H).
Qed.

Lemma indexOf_prefix (p key : string) :
  String.prefix p key = true -> indexOf key p = Some 0%nat.
Proof.
  unfold indexOf. destruct key as [|b key]; simpl.
  - destruct p; [reflexivity|discriminate].
  - intros H. simpl in H. now rewrite H.
Qed.

Lemma skipn_nth_error {A : Type} (l : list A) (i : nat) (x : A) :
  nth_error l i = Some x -> skipn i l = x :: skipn (S i) l.
Proof.
  revert l. induction i as [|i IH]; intros [|y l]; simpl; try discriminate.
  - now intros [= ->].
  - intros H. now rewrite (IH l H).
Qed.

Lemma get_keys_loop_web (w : list (string * Value)) (pfx : string)
  (n i : nat) (acc : list string) :
  (i + n = List.length w)%nat ->
  get_keys_loop (Web w) pfx n i acc
  = Ok (acc ++ short_keys pfx (skipn i (obj_keys w)))%list.
Proof.
  revert i acc. induction n as [|n IH]; intros i acc Hn; simpl.
  - rewrite skipn_all2 by (unfold obj_keys; rewrite length_map; lia).
    simpl. now rewrite app_nil_r.
  - destruct (nth_error (obj_keys w) i) as [key|] eqn:E.
    + rewrite (skipn_nth_error _ _ _ E). simpl.
      destruct (indexOf key pfx) as [idx|].
      * rewrite IH by lia. now rewrite <- app_assoc.
      * rewrite IH by lia. reflexivity.
    + apply nth_error_None in E. unfold obj_keys in E.
      rewrite length_map in E. lia.
Qed.

Lemma keys_web (pfx : string) (w : list (string * Value)) :
  keys (web_cache pfx w) = Ok (short_keys pfx (obj_keys w)).
Proof.
  unfold keys, _get_keys. simpl. rewrite Nat2Z.id.
  now rewrite get_keys_loop_web.
Qed.

Lemma fold_remove_web (pfx : string) (ks : list string)
  (w : list (string * Value)) :
  fold_left remove ks (web_cache pfx w)
  = web_cache pfx (fold_left (fun w k => obj_delete w (pfx ++ k)) ks w).
Proof.
  revert w. induction ks as [|k ks IH]; intros w; simpl; [reflexivity|].
  apply IH.
Qed.

Lemma obj_delete_filter {A : Type} (o : list (string * A)) (key : string) :
  obj_delete o key = filter (fun kv => negb (fst kv =? key)%string) o.
Proof.
  induction o as [|[k v] o IH]; simpl; [reflexivity|].
  destruct (k =? key)%string; simpl; now rewrite IH.
Qed.

Lemma fold_delete_filter {A : Type} (pfx : string) (ks : list string)
  (o : list (string * A)) :
  fold_left (fun w k => obj_delete w (pfx ++ k)) ks o
  = filter (fun kv => negb (existsb (fun k => (fst kv =? pfx ++ k)%string) ks)) o.
Proof.
  revert o. induction ks as [|k ks IH]; intros o; simpl.
  - induction o as [|kv o IHo]; simpl; [reflexivity|now rewrite <- IHo].
  - rewrite IH, obj_delete_filter. clear IH.
    induction o as [|kv o IHo]; simpl; [reflexivity|].
    destruct (fst kv =? pfx ++ k)%string; simpl; [assumption|].
    destruct (existsb _ ks); simpl; now rewrite IHo.
Qed.

Lemma short_keys_prefix (pfx key : string) (ks : list string) :
  In key ks ->
  existsb (fun k => (key =? pfx ++ k)%string) (short_keys pfx ks)
  = String.prefix pfx key.
Proof.
  intros Hin. destruct (String.prefix pfx key) eqn:E.
  - apply existsb_exists. exists (substr key (String.length pfx)). split.
    + unfold short_keys. apply in_flat_map. exists key. split; [assumption|].
      rewrite (indexOf_prefix _ _ E). now left.
    + apply String.eqb_eq. symmetry. now apply prefix_substr.
  - destruct (existsb _ (short_keys pfx ks)) eqn:X; [|reflexivity].
    apply existsb_exists in X as [k [_ Hk]]. apply String.eqb_eq in Hk.
    rewrite Hk, prefix_append in E. discriminate E.
Qed.

(** On a Web Storage, [clear] removes the entries whose key starts with
    the prefix, and no other entry. *)
Lemma clear_web_storage (pfx : string) (w : list (string * Value)) :
  clear (web_cache pfx w)
  = (web_cache pfx (filter (fun kv => negb (String.prefix pfx (fst kv))) w),
     Ok tt).
Proof.
  unfold clear. cbn [storage web_cache]. fold (web_cache pfx w).
  rewrite keys_web, fold_remove_web, fold_delete_filter.
  do 2 f_equal. apply filter_ext_in. intros [key v] Hin. simpl. f_equal.
  apply short_keys_prefix. unfold obj_keys.
  change key with (fst (key, v)). now apply in_map.
Qed.

(** * Further properties of the facade *)

(** ** Keys apart *)

Lemma append_inj_left (p a b : string) : p ++ a = p ++ b -> a = b.
Proof.
  induction p as [|c p IH]; simpl; [auto|].
  intros [= H]. auto.
Qed.

Lemma obj_get_set_other {A : Type} (o : list (string * A)) (k k' : string)
  (v : A) :
  k <> k' -> obj_get (obj_set o k v) k' = obj_get o k'.
Proof.
  intros Hn. induction o as [|[x y] o IH]; simpl.
  - destruct (String.eqb_spec k k'); [contradiction|reflexivity].
  - destruct (String.eqb_spec x k) as [->|Hx]; simpl.
    + destruct (String.eqb_spec k k'); [contradiction|reflexivity].
    + destruct (x =? k')%string; [reflexivity|assumption].
Qed.

Lemma obj_get_delete_other {A : Type} (o : list (string * A)) (k k' : string) :
  k <> k' -> obj_get (obj_delete o k) k' = obj_get o k'.
Proof.
  intros Hn. induction o as [|[x y] o IH]; simpl; [reflexivity|].
  destruct (String.eqb_spec x k) as [->|Hx]; simpl.
  - destruct (String.eqb_spec k k'); [contradiction|assumption].
  - destruct (x =? k')%string; [reflexivity|assumption].
Qed.

Lemma backend_entry_remove_other (me : Cache) (k k' : string) :
  k <> k' -> backend_entry (remove me k) k' = backend_entry me k'.
Proof.
  intros Hn.
  assert (Hp : keyPrefix me ++ k <> keyPrefix me ++ k')
    by (intros H; apply Hn; eapply append_inj_left; eassumption).
  unfold backend_entry, remove. destruct me as [pfx [m|w]]; simpl in *.
  - unfold MemStorage.removeItem.
    destruct (truthy (obj_read (MemStorage.items m) (pfx ++ k))); simpl;
      [now apply obj_get_delete_other|reflexivity].
  - now apply obj_get_delete_other.
Qed.

Lemma backend_entry_setItem_other (me : Cache) (k k' : string) (v : Value) :
  k <> k' ->
  backend_entry
    (mkCache (keyPrefix me) (setItem (storage me) (keyPrefix me ++ k) v)) k'
  = backend_entry me k'.
Proof.
  intros Hn.
  assert (Hp : keyPrefix me ++ k <> keyPrefix me ++ k')
    by (intros H; apply Hn; eapply append_inj_left; eassumption).
  unfold backend_entry. destruct me as [pfx [m|w]]; simpl in *.
  - unfold MemStorage.setItem.
    destruct (truthy (obj_read (MemStorage.items m) (pfx ++ k))); simpl;
      now apply obj_get_set_other.
  - now apply obj_get_set_other.
Qed.

(** What is fetched under a key depends on the entry of the backend under
    that key, on the kind of the storage and on nothing else. *)
Lemma fetch_backend_entry (host : Host) (me me' : Cache) (key : string) :
  webStorage me' = webStorage me ->
  backend_entry me' key = backend_entry me key ->
  _fetch_value host me' key = _fetch_value host me key.
Proof.
  unfold _fetch_value, backend_entry, _thaw, webStorage, MemStorage.getItem,
    obj_read.
  destruct me as [pfx [m|w]], me' as [pfx' [m'|w']]; simpl;
    try discriminate; intros _ H; now rewrite H.
Qed.

Lemma webStorage_remove (me : Cache) (k : string) :
  webStorage (remove me k) = webStorage me.
Proof. now destruct me as [pfx [m|w]]. Qed.

Lemma webStorage_setItem (me : Cache) (k : string) (v : Value) :
  webStorage (mkCache (keyPrefix me) (setItem (storage me) k v))
  = webStorage me.
Proof. now destruct me as [pfx [m|w]]. Qed.

Lemma fetch_remove_other (host : Host) (me : Cache) (k k' : string) :
  k <> k' -> _fetch_value host (remove me k) k' = _fetch_value host me k'.
Proof.
  intros Hn. apply fetch_backend_entry.
  - apply webStorage_remove.
  - now apply backend_entry_remove_other.
Qed.

Lemma remove_absent (me : Cache) (key : string) :
  backend_entry me key = None -> remove me key = me.
Proof.
  unfold backend_entry, remove. destruct me as [pfx [m|w]]; simpl; intros H.
  - unfold MemStorage.removeItem, obj_read. now rewrite H.
  - rewrite obj_delete_absent; [reflexivity|]. now apply obj_get_not_In.
Qed.

(** X1. A key a Web Storage holds nothing under: [get] returns
    [undefined] and [has] answers false, without an exception, and neither
    [get] nor [remove] changes the cache. *)
Theorem missing_key_is_absent (host : Host) (me : Cache) (now : Z)
  (key : string) :
  webStorage me = true ->
  backend_entry me key = None ->
  get host me now key = (me, Ok VUndefined)
  /\ has host me key = Ok false
  /\ remove me key = me.
Proof.
  intros _ H.
  assert (Hf : _fetch_value host me key = Ok VUndefined).
  { unfold _fetch_value, backend_entry, MemStorage.getItem, obj_read in *.
    destruct me as [pfx [m|w]]; simpl in *; now rewrite H. }
  unfold get, has. rewrite Hf. repeat split. now apply remove_absent.
Qed.

Lemma missing_key_is_absent_witness :
  get plain_host cache_with_k 0 "other" = (cache_with_k, Ok VUndefined)
  /\ has plain_host cache_with_k "other" = Ok false
  /\ remove cache_with_k "other" = cache_with_k.
Proof.
  apply (missing_key_is_absent plain_host cache_with_k 0 "other");
    reflexivity.
Defined.

(** X2. After [remove(key)] on a Web Storage, whatever was stored,
    [get(key)] returns [undefined], [has(key)] answers false, and a second
    [remove(key)] changes nothing. *)
Theorem removed_key_is_absent (host : Host) (me : Cache) (now : Z)
  (key : string) :
  webStorage me = true ->
  get host (remove me key) now key = (remove me key, Ok VUndefined)
  /\ has host (remove me key) key = Ok false
  /\ remove (remove me key) key = remove me key.
Proof.
  destruct me as [pfx [m|w]]; [discriminate|]. intros _.
  change (mkCache pfx (Web w)) with (web_cache pfx w).
  pose proof (fetch_removed_web host pfx w key) as Hf.
  repeat split.
  - unfold get. now rewrite Hf.
  - unfold has. now rewrite Hf.
  - unfold remove; simpl.
    rewrite (obj_delete_absent (obj_delete w (pfx ++ key))); [reflexivity|].
    apply obj_get_not_In. apply obj_get_delete_same.
Qed.

Lemma removed_key_is_absent_witness :
  get plain_host (remove cache_with_k "k") 0 "k"
  = (remove cache_with_k "k", Ok VUndefined)
  /\ has plain_host (remove cache_with_k "k") "k" = Ok false
  /\ remove (remove cache_with_k "k") "k" = remove cache_with_k "k".
Proof.
  apply (removed_key_is_absent plain_host cache_with_k 0 "k"). reflexivity.
Defined.

(** X3. On a Web Storage the operations on one key leave the entries
    under every other key as they are: what is fetched under [k'] is the
    same after [remove(k)], after [set(k, value, expires)], whether it
    returns or raises, for a value none of whose objects has a member of
    its own named [hasOwnProperty], and after [get(k)], whether it evicts
    or not. *)
Theorem other_keys_untouched (host : Host) (me : Cache) (now : Z)
  (k k' : string) (value expires : Value) :
  webStorage me = true ->
  shadows value = false ->
  k <> k' ->
  _fetch_value host (remove me k) k' = _fetch_value host me k'
  /\ _fetch_value host (fst (set me now (VString k) value expires)) k'
     = _fetch_value host me k'
  /\ _fetch_value host (fst (get host me now k)) k' = _fetch_value host me k'.
Proof.
  intros _ _ Hn. split; [now apply fetch_remove_other|]. split.
  - unfold set.
    destruct (check_input (VString k) value expires) as [k0|e] eqn:Hc;
      [|reflexivity].
    apply check_input_key in Hc as [[= <-] _].
    destruct (_freeze (remove me k) (entry value (expiration now expires)))
      as [frozen|e]; cbn [fst].
    + rewrite <- (fetch_remove_other host me k k' Hn).
      apply fetch_backend_entry.
      * apply webStorage_setItem.
      * now apply backend_entry_setItem_other.
    + now apply fetch_remove_other.
  - unfold get.
    destruct (_fetch_value host me k) as [item|e]; [|reflexivity].
    destruct item; try reflexivity;
      cbn [prop];
      try match goal with
        | |- context [expired ?h ?x ?n] => destruct (expired h x n) as [[|]|]
        end;
      cbn [fst]; try reflexivity; now apply fetch_remove_other.
Qed.

Lemma other_keys_untouched_witness :
  _fetch_value plain_host (remove cache_with_k "j") "k"
  = _fetch_value plain_host cache_with_k "k"
  /\ _fetch_value plain_host
       (fst (set cache_with_k 0 (VString "j") (VNumber (Fin 1)) VUndefined)) "k"
     = _fetch_value plain_host cache_with_k "k"
  /\ _fetch_value plain_host (fst (get plain_host cache_with_k 0 "j")) "k"
     = _fetch_value plain_host cache_with_k "k".
Proof.
  apply (other_keys_untouched plain_host cache_with_k 0 "j" "k"
           (VNumber (Fin 1)) VUndefined);
    [reflexivity|reflexivity|discriminate].
Defined.

(** ** What the serializer accepts *)

Lemma serialize_array_loop_supported (l result : list Value) :
  Forall serializes l ->
  existsb shadows l = false ->
  if forallb supported l
  then exists s, serialize_array_loop l result = Ok s
  else exists t, serialize_array_loop l result = Raise (InvalidValueType t)
                 /\ unsupported t = true.
Proof.
  intros H. revert result.
  induction H as [|x l Hx _ IH]; intros result Hsh; simpl.
  - eexists; reflexivity.
  - simpl in Hsh. apply orb_false_iff in Hsh as [Hshx Hshl].
    destruct (Hx Hshx) as [Hok Hbad].
    destruct (supported x) eqn:E; simpl.
    + destruct (Hok eq_refl) as [s ->]. simpl. now apply IH.
    + destruct (Hbad eq_refl) as [t [-> Ht]]. simpl. eauto.
Qed.

Lemma serialize_object_loop_supported
  (object m result : list (string * Value)) :
  obj_get object "hasOwnProperty" = None ->
  Forall (fun kv => has_own object (fst kv) = true) m ->
  Forall (fun kv => serializes (snd kv)) m ->
  existsb (fun kv => shadows (snd kv)) m = false ->
  if forallb (fun kv => supported (snd kv)) m
  then exists s, serialize_object_loop object m result = Ok s
  else exists t,
      serialize_object_loop object m result = Raise (InvalidValueType t)
      /\ unsupported t = true.
Proof.
  intros Hh Ho H. revert result Ho.
  induction H as [|[k x] m Hx _ IH]; intros result Ho Hsh; simpl.
  - eexists; reflexivity.
  - inversion Ho as [|? ? Hk Ho']; subst. simpl in Hk, Hx, Hsh.
    apply orb_false_iff in Hsh as [Hshx Hshl].
    destruct (Hx Hshx) as [Hok Hbad].
    unfold call_hasOwnProperty. rewrite Hh, Hk. simpl.
    destruct (supported x) eqn:E; simpl.
    + destruct (Hok eq_refl) as [s ->]. simpl. now apply IH.
    + destruct (Hbad eq_refl) as [t [-> Ht]]. simpl. eauto.
Qed.

Lemma serializes_all (v : Value) : serializes v.
Proof.
  induction v as [v Hv|l IH|m IH] using Value_nested_ind; intros Hsh.
  - destruct v; try contradiction; split; intros H; try discriminate H;
      try (eexists; reflexivity); eexists; split; reflexivity.
  - simpl in Hsh.
    pose proof (serialize_array_loop_supported l [] IH Hsh) as H.
    rewrite <- serialize_array_unfold in H. simpl supported.
    destruct (forallb supported l); split; intros E; try discriminate E;
      exact H.
  - simpl in Hsh. apply orb_false_iff in Hsh as [Hh Hsh].
    assert (Hg : obj_get m "hasOwnProperty" = None).
    { unfold has_own in Hh. now destruct (obj_get m "hasOwnProperty"). }
    assert (Ho : Forall (fun kv => has_own m (fst kv) = true) m).
    { apply Forall_forall. intros kv. apply has_own_member. }
    pose proof (serialize_object_loop_supported m m [] Hg Ho IH Hsh) as H.
    rewrite <- serialize_object_unfold in H.
    simpl supported.
    destruct (forallb (fun kv => supported (snd kv)) m); split; intros E;
      try discriminate E; exact H.
Qed.

(** X4. For a value none of whose objects has a member of its own named
    [hasOwnProperty], the serializer returns a document exactly when the
    value holds no function, regular expression, element or text node at
    any depth; for every other such value it raises "Invalid value type"
    with the name of such a type, and it raises nothing else. *)
Theorem serializer_accepts_supported (v : Value) :
  shadows v = false ->
  ((exists s, _serialize_value v = Ok s) <-> supported v = true)
  /\ (forall e, _serialize_value v = Raise e ->
        exists t, e = InvalidValueType t /\ unsupported t = true).
Proof.
  intros Hsh.
  destruct (serializes_all v Hsh) as [Hok Hbad]. split; [split|].
  - intros [s Hs]. destruct (supported v) eqn:E; [reflexivity|].
    destruct (Hbad eq_refl) as [t [Ht _]]. congruence.
  - assumption.
  - intros e He. destruct (supported v) eqn:E.
    + destruct (Hok eq_refl) as [s Hs]. congruence.
    + destruct (Hbad eq_refl) as [t [Ht Hu]]. exists t. split; congruence.
Qed.

Lemma serializer_accepts_supported_witness :
  ((exists s, _serialize_value (VObject [("a", VArray [VRegexp])]) = Ok s)
   <-> supported (VObject [("a", VArray [VRegexp])]) = true)
  /\ (forall e,
        _serialize_value (VObject [("a", VArray [VRegexp])]) = Raise e ->
        exists t, e = InvalidValueType t /\ unsupported t = true).
Proof.
  apply (serializer_accepts_supported (VObject [("a", VArray [VRegexp])])).
  reflexivity.
Defined.

(** ** The outcomes of [set] *)

Lemma supported_expiration (now : Z) (expires : Value) :
  supported (expiration now expires) = true.
Proof. destruct expires as [| | |[]| | | | | | | | |]; reflexivity. Qed.

(** X5. The four checks of [set] run in this order, each raising its own
    exception and leaving the cache as it was: the key must be a non-empty
    string; the value must not be [undefined]; the value must not be a
    function, a regular expression, an element or a text node, and the
    exception names its type; the expiration must be [undefined], a finite
    number or a date. *)
Theorem set_checks_in_order (me : Cache) (now : Z) (key value expires : Value) :
  (valid_key key = false ->
     set me now key value expires = (me, Raise InvalidKey))
  /\ (valid_key key = true -> value = VUndefined ->
      set me now key value expires = (me, Raise InvalidValue))
  /\ (valid_key key = true -> unsupported (_get_value_type value) = true ->
      set me now key value expires
      = (me, Raise (UnsupportedType (_get_value_type value))))
  /\ (valid_key key = true -> value <> VUndefined ->
      unsupported (_get_value_type value) = false ->
      valid_expires expires = false ->
      set me now key value expires = (me, Raise InvalidExpiration)).
Proof.
  repeat split.
  - intros Hk. apply set_check_input_raises.
    destruct key; try reflexivity. simpl in *.
    now destruct (s =? "")%string.
  - intros Hk ->. apply set_check_input_raises.
    destruct key; try discriminate. simpl in *.
    now destruct (s =? "")%string.
  - intros Hk Hu. apply set_check_input_raises.
    destruct key; try discriminate. simpl in Hk. simpl.
    destruct (s =? "")%string; [discriminate|].
    destruct value; try discriminate Hu; reflexivity.
  - intros Hk Hv Hu He. apply set_check_input_raises.
    destruct key; try discriminate. simpl in Hk. simpl.
    destruct (s =? "")%string; [discriminate|].
    destruct value; try contradiction; try discriminate Hu;
      (destruct expires; try discriminate He; simpl in He |- *;
       try apply orb_false_iff in He as [He1 He2];
       try rewrite He1; reflexivity).
Qed.

(** X6. On the in-memory storage nothing is serialized: once the four
    checks pass, [set] succeeds whatever the value holds inside, also a
    function, and the entry fetched back is the pair of the value and of
    the expiration resolved at the time of the call. *)
Theorem memory_set_stores_value_as_is (host : Host) (me : Cache) (now : Z)
  (key value expires : Value) (k : string) :
  webStorage me = false ->
  check_input key value expires = Ok k ->
  exists me',
    set me now key value expires = (me', Ok value)
    /\ _fetch_value host me' k = Ok (entry value (expiration now expires)).
Proof.
  intros Hw Hc. unfold set. rewrite Hc.
  destruct me as [pfx [m|w]]; [|discriminate Hw].
  unfold _freeze, remove, webStorage. cbn [storage keyPrefix removeItem setItem negb].
  eexists. split; [reflexivity|].
  unfold _fetch_value. cbn [storage keyPrefix].
  unfold MemStorage.getItem, MemStorage.setItem. simpl.
  match goal with
  | |- context [obj_read (obj_set ?o ?k' ?v) ?k'] =>
      replace (obj_read (obj_set o k' v) k') with v
        by (unfold obj_read; now rewrite obj_get_set_same)
  end.
  reflexivity.
Qed.

Lemma memory_set_stores_value_as_is_witness :
  exists me',
    set (memory_cache MemStorage.empty) 0 (VString "k") (VArray [VFunction])
      VUndefined = (me', Ok (VArray [VFunction]))
    /\ _fetch_value plain_host me' "k"
       = Ok (entry (VArray [VFunction]) VUndefined).
Proof.
  apply (memory_set_stores_value_as_is plain_host
           (memory_cache MemStorage.empty) 0 (VString "k") (VArray [VFunction])
           VUndefined "k"); reflexivity.
Defined.

Lemma shadows_expiration (now : Z) (expires : Value) :
  shadows (expiration now expires) = false.
Proof. destruct expires as [| | |[]| | | | | | | | |]; reflexivity. Qed.

(** X7. On a Web Storage, once the four checks pass, [set] of a value
    none of whose objects has a member of its own named [hasOwnProperty]
    has two outcomes.  When the value holds no unsupported type at any
    depth, the old entry is removed and the document of the new entry, as
    [Ext.JSON] gives it back, is stored under the prefixed key.  Otherwise
    the serializer raises "Invalid value type" after [remove] has run: the
    cache is left with the old entry removed and nothing stored. *)
Theorem web_set_outcomes (me : Cache) (now : Z) (key value expires : Value)
  (k : string) :
  webStorage me = true ->
  check_input key value expires = Ok k ->
  shadows value = false ->
  (supported value = true ->
     exists doc,
       _serialize_value (entry value (expiration now expires)) = Ok doc
       /\ set me now key value expires
          = (mkCache (keyPrefix me)
               (setItem (storage (remove me k)) (keyPrefix me ++ k)
                  (json_image doc)),
             Ok value))
  /\ (supported value = false ->
      exists t,
        unsupported t = true
        /\ set me now key value expires
           = (remove me k, Raise (InvalidValueType t))).
Proof.
  intros Hw Hc Hsh. unfold set. rewrite Hc. unfold _freeze.
  rewrite webStorage_remove, Hw. cbn [negb].
  assert (Hsh' : shadows (entry value (expiration now expires)) = false).
  { change (shadows (entry value (expiration now expires)))
      with (false || (shadows value
                      || (shadows (expiration now expires) || false))).
    now rewrite Hsh, shadows_expiration. }
  destruct (serializes_all (entry value (expiration now expires)) Hsh')
    as [Hok Hbad].
  assert (Hs : supported (entry value (expiration now expires))
               = supported value).
  { simpl. rewrite supported_expiration. now rewrite andb_true_r. }
  rewrite Hs in Hok, Hbad. split; intros E.
  - destruct (Hok E) as [doc Hdoc]. exists doc. now rewrite Hdoc.
  - destruct (Hbad E) as [t [Ht Hu]]. exists t. now rewrite Ht.
Qed.

Lemma web_set_outcomes_witness :
  (supported (VArray [VFunction]) = true ->
     exists doc,
       _serialize_value (entry (VArray [VFunction]) (expiration 0 VUndefined))
       = Ok doc
       /\ set cache_with_k 0 (VString "k") (VArray [VFunction]) VUndefined
          = (mkCache (keyPrefix cache_with_k)
               (setItem (storage (remove cache_with_k "k"))
                  (keyPrefix cache_with_k ++ "k") (json_image doc)),
             Ok (VArray [VFunction])))
  /\ (supported (VArray [VFunction]) = false ->
      exists t,
        unsupported t = true
        /\ set cache_with_k 0 (VString "k") (VArray [VFunction]) VUndefined
           = (remove cache_with_k "k", Raise (InvalidValueType t))).
Proof.
  apply (web_set_outcomes cache_with_k 0 (VString "k") (VArray [VFunction])
           VUndefined "k"); reflexivity.
Defined.

(** ** Reading back what was set *)

(** X8. A value set with no expiration is there for good: for every
    storable value, of any variant, [set] returns the value, [has]
    answers true, and [get] returns the value at every later or earlier
    time and leaves the cache as it is. *)
Theorem set_then_get (host : Host) (me : Cache) (now now' : Z)
  (key value : Value) (k : string) :
  check_input key value VUndefined = Ok k ->
  storable value = true ->
  exists me',
    set me now key value VUndefined = (me', Ok value)
    /\ has host me' k = Ok true
    /\ get host me' now' k = (me', Ok value).
Proof.
  intros Hc Hv.
  destruct (fetch_after_set_storable host me now key value VUndefined k Hc Hv
              eq_refl) as [me' [Hset Hf]].
  exists me'. split; [assumption|]. split.
  - apply has_spec. eexists. split; [eassumption|discriminate].
  - cbn [expiration] in Hf. unfold entry in Hf.
    now rewrite (get_fetched host me' now' k _ Hf).
Qed.

Lemma set_then_get_witness :
  exists me',
    set (web_cache default_prefix []) 5 (VString "c") sample_value VUndefined
    = (me', Ok sample_value)
    /\ has plain_host me' "c" = Ok true
    /\ get plain_host me' 9 "c" = (me', Ok sample_value).
Proof.
  apply (set_then_get plain_host (web_cache default_prefix []) 5 9
           (VString "c") sample_value "c"); reflexivity.
Defined.

(** X9. A time to live: after [set(key, value, ttl)] at time [now0], for
    a storable value, a whole number of milliseconds [ttl] of at most 52
    bits and [now0 + ttl] in the range of time values, [get] returns the
    value at
    every time up to [now0 + ttl] included, and at every later time it
    removes the entry and returns [undefined]; with a negative [ttl] the
    entry is expired at the very time of the call. *)
Theorem time_to_live (host : Host) (me : Cache) (now0 ttl : Z)
  (key value : Value) (k : string) :
  check_input key value (VNumber (Fin ttl)) = Ok k ->
  storable value = true ->
  Z.abs ttl <= 2 ^ 52 ->
  Z.abs (now0 + ttl) <= 8640000000000000 ->
  exists me',
    set me now0 key value (VNumber (Fin ttl)) = (me', Ok value)
    /\ (forall now, now <= now0 + ttl -> get host me' now k = (me', Ok value))
    /\ (forall now, now0 + ttl < now ->
          get host me' now k = (remove me' k, Ok VUndefined))
    /\ (ttl < 0 -> get host me' now0 k = (remove me' k, Ok VUndefined)).
Proof.
  intros Hc Hv _ Hr.
  destruct (fetch_after_set_storable host me now0 key value _ k Hc Hv
              (storable_new_Date _)) as [me' [Hset Hf]].
  exists me'. split; [assumption|].
  cbn [expiration] in Hf. unfold new_Date, truncate, time_clip in Hf.
  apply Z.leb_le in Hr. rewrite Hr in Hf. unfold entry in Hf.
  assert (Hg : forall n, get host me' n k
                         = if now0 + ttl <? n
                           then (remove me' k, Ok VUndefined)
                           else (me', Ok value)).
  { intros n. rewrite (get_fetched host me' n k _ Hf).
    change (obj_read _ "expires") with (VDate (Some (now0 + ttl))).
    rewrite expired_date. now destruct (now0 + ttl <? n). }
  repeat split; intros; rewrite Hg.
  - assert (H' : (now0 + ttl <? now) = false) by now apply Z.ltb_ge.
    now rewrite H'.
  - assert (H' : (now0 + ttl <? now) = true) by now apply Z.ltb_lt.
    now rewrite H'.
  - assert (H' : (now0 + ttl <? now0) = true) by (apply Z.ltb_lt; lia).
    now rewrite H'.
Qed.

Lemma time_to_live_witness :
  exists me',
    set (web_cache default_prefix []) 1000 (VString "k") (VString "foo")
      (VNumber (Fin 20)) = (me', Ok (VString "foo"))
    /\ get plain_host me' 1020 "k" = (me', Ok (VString "foo"))
    /\ get plain_host me' 1021 "k" = (remove me' "k", Ok VUndefined).
Proof.
  destruct (time_to_live plain_host (web_cache default_prefix []) 1000 20
              (VString "k") (VString "foo") "k")
    as [me' [Hset [Hin [Hout _]]]]; [reflexivity|reflexivity|lia|lia|].
  exists me'. split; [exact Hset|]. split; [apply Hin|apply Hout]; lia.
Defined.

(** ** [clear] and [keys] *)

Lemma invariant_truthy_calls_witness :
  MemStorage.invariant
    (MemStorage.run [MemStorage.SetItem "a" (VString "x");
                     MemStorage.SetItem "b" (VObject []);
                     MemStorage.SetItem "a" (VNumber (Fin 1));
                     MemStorage.RemoveItem "b";
                     MemStorage.RemoveItem "c"]).
Proof.
  apply (invariant_truthy_calls
           [MemStorage.SetItem "a" (VString "x");
            MemStorage.SetItem "b" (VObject []);
            MemStorage.SetItem "a" (VNumber (Fin 1));
            MemStorage.RemoveItem "b";
            MemStorage.RemoveItem "c"]); reflexivity.
Defined.

Lemma fetch_absent (host : Host) (me : Cache) (key : string) :
  backend_entry me key = None -> _fetch_value host me key = Ok VUndefined.
Proof.
  unfold _fetch_value, backend_entry, MemStorage.getItem, obj_read.
  destruct me as [pfx [m|w]]; simpl; intros H; now rewrite H.
Qed.

Lemma obj_get_filter_out {A : Type} (f : string * A -> bool)
  (o : list (string * A)) (key : string) :
  (forall v, f (key, v) = false) -> obj_get (filter f o) key = None.
Proof.
  intros Hf. induction o as [|[k v] o IH]; simpl; [reflexivity|].
  destruct (f (k, v)) eqn:E; [|assumption]. simpl.
  destruct (String.eqb_spec k key) as [->|_]; [|assumption].
  rewrite Hf in E. discriminate E.
Qed.

(** X12. On a Web Storage [clear] never raises, and after it the cache
    holds no key: for every key, [has] answers false and [get] returns
    [undefined]. *)
Theorem clear_empties_cache (host : Host) (me : Cache) (now : Z)
  (key : string) :
  webStorage me = true ->
  snd (clear me) = Ok tt
  /\ has host (fst (clear me)) key = Ok false
  /\ get host (fst (clear me)) now key = (fst (clear me), Ok VUndefined).
Proof.
  intros Hw.
  assert (H : snd (clear me) = Ok tt
              /\ backend_entry (fst (clear me)) key = None).
  { destruct me as [pfx [m|w]].
    - discriminate Hw.
    - change (mkCache pfx (Web w)) with (web_cache pfx w).
      rewrite clear_web_storage. split; [reflexivity|].
      unfold backend_entry. cbn [fst storage web_cache keyPrefix].
      apply obj_get_filter_out. intros v. cbn [fst].
      now rewrite prefix_append. }
  destruct H as [Hc He]. split; [assumption|].
  pose proof (fetch_absent host _ key He) as Hf.
  unfold has, get. now rewrite Hf.
Qed.

Lemma clear_empties_cache_witness :
  snd (clear cache_with_k) = Ok tt
  /\ has plain_host (fst (clear cache_with_k)) "k" = Ok false
  /\ get plain_host (fst (clear cache_with_k)) 0 "k"
     = (fst (clear cache_with_k), Ok VUndefined).
Proof.
  apply (clear_empties_cache plain_host cache_with_k 0 "k"). reflexivity.
Defined.

Lemma obj_get_filter_keep {A : Type} (f : string * A -> bool)
  (o : list (string * A)) (key : string) :
  (forall v, f (key, v) = true) -> obj_get (filter f o) key = obj_get o key.
Proof.
  intros Hf. induction o as [|[k v] o IH]; simpl; [reflexivity|].
  destruct (f (k, v)) eqn:E; simpl.
  - now rewrite IH.
  - destruct (String.eqb_spec k key) as [->|_]; [|assumption].
    rewrite Hf in E. discriminate E.
Qed.

(** X10. On a Web Storage shared with other users, [clear] removes the
    entries whose key starts with the prefix of the cache and no other:
    the storage keeps, in their order, the entries whose key does not
    start with the prefix, so that every such key reads as before and
    every key with the prefix reads as missing. *)
Theorem clear_keeps_foreign_entries (pfx : string)
  (w : list (string * Value)) :
  exists w',
    clear (web_cache pfx w) = (web_cache pfx w', Ok tt)
    /\ w' = filter (fun kv => negb (String.prefix pfx (fst kv))) w
    /\ (forall key, String.prefix pfx key = false ->
          obj_get w' key = obj_get w key)
    /\ (forall key, String.prefix pfx key = true -> obj_get w' key = None).
Proof.
  eexists. split; [apply clear_web_storage|]. split; [reflexivity|]. split.
  - intros key H. apply obj_get_filter_keep. intros v. cbn [fst].
    now rewrite H.
  - intros key H. apply obj_get_filter_out. intros v. cbn [fst].
    now rewrite H.
Qed.

Lemma short_keys_own (pfx : string) (ks : list string) :
  (forall key, In key ks ->
     String.prefix pfx key = true \/ indexOf key pfx = None) ->
  short_keys pfx ks
  = map (fun key => substr key (String.length pfx))
      (filter (String.prefix pfx) ks).
Proof.
  induction ks as [|key ks IH]; intros H; [reflexivity|].
  simpl. rewrite IH by (intros k Hk; apply H; now right).
  destruct (String.prefix pfx key) eqn:E.
  - now rewrite (indexOf_prefix _ _ E).
  - destruct (H key (or_introl eq_refl)) as [Hp|Hi]; [congruence|].
    now rewrite Hi.
Qed.

(** X13. On a Web Storage in which no key of another user holds the
    prefix of the cache (every key starts with the prefix or does not
    contain it), [keys] lists exactly the keys of the cache with the
    prefix cut off: [k] is listed if and only if the storage holds an
    entry under the prefix followed by [k]. *)
Theorem keys_lists_own_keys (pfx : string) (w : list (string * Value)) :
  (forall key, In key (obj_keys w) ->
     String.prefix pfx key = true \/ indexOf key pfx = None) ->
  exists ks,
    keys (web_cache pfx w) = Ok ks
    /\ ks = map (fun key => substr key (String.length pfx))
              (filter (String.prefix pfx) (obj_keys w))
    /\ (forall k, In k ks <-> In (pfx ++ k) (obj_keys w)).
Proof.
  intros H. eexists. split; [apply keys_web|].
  split; [now apply short_keys_own|].
  rewrite (short_keys_own pfx (obj_keys w) H).
  intros k. rewrite in_map_iff. split.
  - intros [key [<- Hk]]. apply filter_In in Hk as [Hin Hp].
    now rewrite (prefix_substr pfx key Hp).
  - intros Hin. exists (pfx ++ k). split.
    + apply (append_inj_left pfx). apply prefix_substr, prefix_append.
    + apply filter_In. split; [assumption|apply prefix_append].
Qed.

Lemma keys_lists_own_keys_witness :
  exists ks,
    keys (web_cache default_prefix
            [("local_foo_0", VString "qux"); ("Ext.ux.Cache.foo", VNull);
             ("Ext.ux.Cache.bar", VNull)]) = Ok ks
    /\ ks = ["foo"; "bar"]
    /\ (forall k,
          In k ks
          <-> In (default_prefix ++ k)
                ["local_foo_0"; "Ext.ux.Cache.foo"; "Ext.ux.Cache.bar"]).
Proof.
  apply (keys_lists_own_keys default_prefix
           [("local_foo_0", VString "qux"); ("Ext.ux.Cache.foo", VNull);
            ("Ext.ux.Cache.bar", VNull)]).
  intros key [<-|[<-|[<-|[]]]]; [right|left|left]; reflexivity.
Defined.

Lemma get_keys_loop_memory (m : MemStorage.t) (pfx : string)
  (n i : nat) (acc : list string) :
  (i + n = List.length (MemStorage.keys m))%nat ->
  get_keys_loop (Memory m) pfx n i acc
  = Ok (acc ++ short_keys pfx (skipn i (MemStorage.keys m)))%list.
Proof.
  revert i acc. induction n as [|n IH]; intros i acc Hn; simpl.
  - rewrite skipn_all2 by lia. simpl. now rewrite app_nil_r.
  - unfold MemStorage.key.
    destruct (nth_error (MemStorage.keys m) i) as [key|] eqn:E.
    + rewrite (skipn_nth_error _ _ _ E). simpl.
      destruct (indexOf key pfx) as [idx|].
      * rewrite IH by lia. now rewrite <- app_assoc.
      * rewrite IH by lia. reflexivity.
    + apply nth_error_None in E. lia.
Qed.

Lemma short_keys_no_prefix (ks : list string) : short_keys "" ks = ks.
Proof.
  induction ks as [|key ks IH]; [reflexivity|].
  simpl. rewrite IH.
  replace (indexOf key "") with (Some 0%nat) by (now destruct key).
  simpl. unfold substr. now rewrite Nat.sub_0_r, substring_all.
Qed.

(** X14. On the in-memory storage, in an aligned state, [keys] lists the
    stored keys, each once, in the order in which they were first
    stored. *)
Theorem keys_memory (m : MemStorage.t) :
  aligned m ->
  keys (memory_cache m) = Ok (obj_keys (MemStorage.items m))
  /\ NoDup (obj_keys (MemStorage.items m)).
Proof.
  intros [Hk [Hn [Hl _]]]. split; [|now rewrite <- Hk].
  unfold keys, _get_keys. cbn [storage memory_cache keyPrefix storage_length].
  rewrite get_keys_loop_memory by (rewrite Hl, Nat2Z.id; reflexivity).
  simpl. now rewrite short_keys_no_prefix, Hk.
Qed.

Lemma keys_memory_witness :
  keys (memory_cache
          (MemStorage.run [MemStorage.SetItem "foo" (VObject []);
                           MemStorage.SetItem "bar" (VObject []);
                           MemStorage.SetItem "foo" (VObject [])]))
  = Ok ["foo"; "bar"]
  /\ NoDup ["foo"; "bar"].
Proof.
  apply (keys_memory
           (MemStorage.run [MemStorage.SetItem "foo" (VObject []);
                            MemStorage.SetItem "bar" (VObject []);
                            MemStorage.SetItem "foo" (VObject [])])).
  repeat split; simpl; repeat constructor; simpl; intuition discriminate.
Defined.

(** ** The cache and the invariant of its in-memory storage *)

Lemma aligned_invariant (m : MemStorage.t) :
  aligned m -> MemStorage.invariant m.
Proof.
  intros [Hk [Hn [Hl _]]]. unfold MemStorage.invariant.
  rewrite <- Hk. repeat split; auto.
Qed.

Lemma aligned_empty : aligned MemStorage.empty.
Proof. repeat split; simpl; constructor. Qed.

Lemma cache_aligned_remove (me : Cache) (k : string) :
  cache_aligned me -> cache_aligned (remove me k).
Proof.
  destruct me as [pfx [m|w]]; unfold cache_aligned, remove; simpl; [|auto].
  apply aligned_removeItem.
Qed.

Lemma obj_set_Forall_at {A : Type} (P : string * A -> Prop)
  (o : list (string * A)) (k : string) (v : A) :
  Forall P o -> P (k, v) -> Forall P (obj_set o k v).
Proof.
  intros Ho Hv. induction Ho as [|[k' v'] o Hx Ho IH]; simpl.
  - constructor; auto.
  - destruct (String.eqb_spec k' k) as [->|_]; constructor; auto.
Qed.

Lemma ordinary_removeItem (m : MemStorage.t) (k : string) :
  ordinary m -> ordinary (MemStorage.removeItem m k).
Proof.
  unfold ordinary, MemStorage.removeItem. intros H.
  destruct (negb (truthy (obj_read (MemStorage.items m) k))); simpl;
    [assumption|]. now apply obj_delete_Forall.
Qed.

Lemma ordinary_setItem (m : MemStorage.t) (k : string) (v : Value) :
  inherited k = false -> ordinary m -> ordinary (MemStorage.setItem m k v).
Proof.
  unfold ordinary, MemStorage.setItem. intros Hk H.
  destruct (negb (truthy (obj_read (MemStorage.items m) k))); simpl;
    now apply obj_set_Forall_at.
Qed.

Lemma cache_ordinary_remove (me : Cache) (k : string) :
  cache_ordinary me -> cache_ordinary (remove me k).
Proof.
  destruct me as [pfx [m|w]]; unfold cache_ordinary, remove; simpl; [|auto].
  apply ordinary_removeItem.
Qed.

(** X15. The cache keeps its in-memory storage aligned: from an aligned
    and ordinary state, [remove], [set] (whether it returns or raises) and
    [get] (whether it evicts or not) on ordinary keys, and [clear], lead
    to an aligned and ordinary state, in which the invariant of the
    storage holds; the entries the cache stores are objects, hence
    truthy. *)
Theorem cache_keeps_storage_aligned (host : Host) (me : Cache) (now : Z)
  (k : string) (value expires : Value) :
  cache_aligned me ->
  cache_ordinary me ->
  ordinary_key me k = true ->
  (cache_aligned (remove me k) /\ cache_ordinary (remove me k))
  /\ (cache_aligned (fst (set me now (VString k) value expires))
      /\ cache_ordinary (fst (set me now (VString k) value expires)))
  /\ (cache_aligned (fst (get host me now k))
      /\ cache_ordinary (fst (get host me now k)))
  /\ (cache_aligned (fst (clear me)) /\ cache_ordinary (fst (clear me)))
  /\ (forall m, storage me = Memory m -> MemStorage.invariant m).
Proof.
  intros Ha Ho Hk.
  pose proof (cache_aligned_remove me k Ha) as Hra.
  pose proof (cache_ordinary_remove me k Ho) as Hro.
  split; [now split|]. split; [|split; [|split]].
  - unfold set.
    destruct (check_input (VString k) value expires) as [k0|e] eqn:Hc;
      [|now split].
    apply check_input_key in Hc as [[= <-] _].
    destruct (_freeze (remove me k) (entry value (expiration now expires)))
      as [frozen|e] eqn:Hf; cbn [fst]; [|now split].
    destruct me as [pfx [m|w]]; unfold cache_aligned, cache_ordinary in *;
      simpl in *; [|auto].
    unfold _freeze in Hf. simpl in Hf. injection Hf as <-.
    unfold ordinary_key in Hk. simpl in Hk. apply negb_true_iff in Hk.
    split; [now apply aligned_setItem|now apply ordinary_setItem].
  - unfold get. destruct (_fetch_value host me k) as [item|e]; [|now split].
    destruct item; try (now split); cbn [prop];
      try match goal with
        | |- context [expired ?h ?x ?n] => destruct (expired h x n) as [[|]|]
        end;
      cbn [fst]; now split.
  - destruct me as [pfx [m|w]].
    + unfold clear, cache_aligned, cache_ordinary. simpl.
      split; [apply aligned_empty|constructor].
    + change (mkCache pfx (Web w)) with (web_cache pfx w).
      rewrite clear_web_storage. split; exact I.
  - intros m Hm. unfold cache_aligned in Ha. rewrite Hm in Ha.
    now apply aligned_invariant.
Qed.

Lemma cache_keeps_storage_aligned_witness :
  let me := fst (set (memory_cache MemStorage.empty) 0 (VString "j")
                   (VString "v") (VNumber (Fin (-1)))) in
  (cache_aligned (remove me "k") /\ cache_ordinary (remove me "k"))
  /\ (cache_aligned (fst (set me 0 (VString "k") (VNumber (Fin 0)) VUndefined))
      /\ cache_ordinary
           (fst (set me 0 (VString "k") (VNumber (Fin 0)) VUndefined)))
  /\ (cache_aligned (fst (get plain_host me 0 "k"))
      /\ cache_ordinary (fst (get plain_host me 0 "k")))
  /\ (cache_aligned (fst (clear me)) /\ cache_ordinary (fst (clear me)))
  /\ (forall m, storage me = Memory m -> MemStorage.invariant m).
Proof.
  apply (cache_keeps_storage_aligned plain_host
           (fst (set (memory_cache MemStorage.empty) 0 (VString "j")
                   (VString "v") (VNumber (Fin (-1)))))
           0 "k" (VNumber (Fin 0)) VUndefined).
  - repeat split; simpl; repeat constructor; simpl; intuition discriminate.
  - repeat constructor.
  - reflexivity.
Defined.

(** ** The in-memory storage, key by key *)

(** X16. Look-up in the in-memory storage, in an ordinary state and for
    ordinary keys: [getItem] returns the value last given to [setItem]
    for the key, whatever the value; [setItem] and [removeItem] on one key
    leave the value under every other key; after [removeItem] the key
    reads as a falsy value, and after [clear] every key reads as
    [undefined]. *)
Theorem memory_storage_lookup (me : MemStorage.t) (k k' : string)
  (value : Value) :
  ordinary me ->
  inherited k = false ->
  inherited k' = false ->
  MemStorage.getItem (MemStorage.setItem me k value) k = value
  /\ (k <> k' ->
      MemStorage.getItem (MemStorage.setItem me k value) k'
      = MemStorage.getItem me k')
  /\ (k <> k' ->
      MemStorage.getItem (MemStorage.removeItem me k) k'
      = MemStorage.getItem me k')
  /\ truthy (MemStorage.getItem (MemStorage.removeItem me k) k) = false
  /\ MemStorage.getItem (MemStorage.clear me) k = VUndefined.
Proof.
  intros _ _ _.
  unfold MemStorage.getItem, MemStorage.setItem, MemStorage.removeItem.
  repeat split.
  - destruct (negb (truthy (obj_read (MemStorage.items me) k))); simpl;
      unfold obj_read; now rewrite obj_get_set_same.
  - intros Hn.
    destruct (negb (truthy (obj_read (MemStorage.items me) k))); simpl;
      unfold obj_read; now rewrite obj_get_set_other.
  - intros Hn.
    destruct (negb (truthy (obj_read (MemStorage.items me) k))); simpl;
      [reflexivity|].
    unfold obj_read. now rewrite obj_get_delete_other.
  - destruct (truthy (obj_read (MemStorage.items me) k)) eqn:E; simpl.
    + unfold obj_read. now rewrite obj_get_delete_same.
    + assumption.
Qed.

Lemma memory_storage_lookup_witness :
  let me := MemStorage.run [MemStorage.SetItem "b" (VString "x")] in
  MemStorage.getItem (MemStorage.setItem me "a" (VString "")) "a" = VString ""
  /\ ("a" <> "b" ->
      MemStorage.getItem (MemStorage.setItem me "a" (VString "")) "b"
      = MemStorage.getItem me "b")
  /\ ("a" <> "b" ->
      MemStorage.getItem (MemStorage.removeItem me "a") "b"
      = MemStorage.getItem me "b")
  /\ truthy (MemStorage.getItem (MemStorage.removeItem me "a") "a") = false
  /\ MemStorage.getItem (MemStorage.clear me) "a" = VUndefined.
Proof.
  apply (memory_storage_lookup
           (MemStorage.run [MemStorage.SetItem "b" (VString "x")])
           "a" "b" (VString "")).
  - repeat constructor.
  - reflexivity.
  - reflexivity.
Defined.

(** ** Exceptions on the way back *)

Lemma check_serialized_true (host : Host) (v : Value) (b : bool) :
  _check_serialized host v = Ok b -> b = true.
Proof.
  unfold _check_serialized. destruct v; try discriminate.
  repeat match goal with
    | |- context [bind ?r _] => destruct r as [[|]|]; cbn [bind]
    end;
    intros H; try discriminate H; now injection H.
Qed.

Lemma deserialize_item_ok (host : Host)
  (rec : Value -> Value -> Result Value) (item x : Value) :
  deserialize_item host rec item = Ok x ->
  _check_serialized host item = Ok true.
Proof.
  unfold deserialize_item.
  destruct item; try discriminate;
    try (simpl; discriminate).
  destruct (_check_serialized host (VObject members)) as [b|e] eqn:E;
    cbn [bind]; [|discriminate].
  intros _. f_equal. eapply check_serialized_true; eassumption.
Qed.

Lemma deserialize_array_loop_checks (host : Host) (l result : list Value)
  (r : Value) :
  deserialize_array_loop host l result = Ok r ->
  Forall (fun item => _check_serialized host item = Ok true) l.
Proof.
  revert result. induction l as [|item l IH]; intros result; simpl.
  - constructor.
  - destruct (deserialize_item host (_deserialize_value host) item)
      as [x|e] eqn:E; simpl; [|discriminate].
    intros H. constructor; [|eapply IH; eassumption].
    eapply deserialize_item_ok; eassumption.
Qed.

Lemma deserialize_object_loop_checks (host : Host)
  (m result : list (string * Value)) (r : Value) :
  deserialize_object_loop host m result = Ok r ->
  Forall (fun kv => _check_serialized host (snd kv) = Ok true) m.
Proof.
  revert result. induction m as [|[i item] m IH]; intros result; simpl.
  - constructor.
  - destruct (deserialize_item host (_deserialize_value host) item)
      as [x|e] eqn:E; simpl; [|discriminate].
    destruct (assign_member result i x) as [result'|e]; simpl;
      [|discriminate].
    intros H. constructor; [|eapply IH; eassumption].
    eapply deserialize_item_ok; eassumption.
Qed.

(** X17. Below the top-level node every node is checked before it is
    deserialized: when an array payload or an object payload is
    deserialized without an exception, each of its items has passed
    [_check_serialized], that is, it is an object with a type member and,
    unless the type is "undefined" or "null", a value member. *)
Theorem nested_nodes_are_checked (host : Host) :
  (forall l r,
      _deserialize_value host (VArray l) (VString "array") = Ok r ->
      Forall (fun item => _check_serialized host item = Ok true) l)
  /\ (forall m r,
        _deserialize_value host (VObject m) (VString "object") = Ok r ->
        Forall (fun kv => _check_serialized host (snd kv) = Ok true) m).
Proof.
  split.
  - intros l r. rewrite deserialize_array_unfold.
    apply deserialize_array_loop_checks.
  - intros m r. rewrite deserialize_object_unfold.
    apply deserialize_object_loop_checks.
Qed.

(** X18. [get] raises only what the fetch raises, a TypeError when the
    fetched entry is [null] (a stored document of type "null", whose
    [expires] cannot be read), or what the comparison of the expiration
    with the time raises, when the expiration of the fetched entry is an
    object that has no primitive value; a [get] that raises an exception
    leaves the cache as it was. *)
Theorem get_exception_leaves_cache (host : Host) (me me' : Cache) (now : Z)
  (key : string) (e : Error) :
  get host me now key = (me', Raise e) ->
  e <> Outside ->
  me' = me
  /\ (_fetch_value host me key = Raise e
      \/ (_fetch_value host me key = Ok VNull /\ e = TypeError)
      \/ (exists m,
             _fetch_value host me key = Ok (VObject m)
             /\ expired host (obj_read m "expires") now = Raise e)).
Proof.
  intros H _. revert H.
  unfold get. destruct (_fetch_value host me key) as [item|e0].
  - destruct item; cbn [prop];
      try match goal with
        | |- context [expired ?h ?x ?n] =>
            destruct (expired h x n) as [[|]|e1] eqn:E
        end;
      intros [= <- H]; try discriminate H; subst; eauto 6.
    all: discriminate E.
  - intros [= <- <-]. auto.
Qed.

Lemma get_exception_leaves_cache_witness :
  let me := web_cache default_prefix
              [("Ext.ux.Cache.n",
                node "object"
                  (VObject
                     [("expires",
                       node "object"
                         (VObject [("toString",
                                    node "number" (VNumber (Fin 1)))]))]))] in
  me = me
  /\ (_fetch_value plain_host me "n" = Raise TypeError
      \/ (_fetch_value plain_host me "n" = Ok VNull /\ TypeError = TypeError)
      \/ (exists m,
             _fetch_value plain_host me "n" = Ok (VObject m)
             /\ expired plain_host (obj_read m "expires") 0 = Raise TypeError)).
Proof.
  intros me.
  apply (get_exception_leaves_cache plain_host me me 0 "n" TypeError);
    [reflexivity|discriminate].
Defined.

(** X19. A stored document that does not deserialize is not repaired and
    not dropped: on a Web Storage, when the document under the key makes
    the deserializer raise an exception, [get] and [has] raise the same
    exception, and the cache is left as it was. *)
Theorem corrupt_document_raises (host : Host) (me : Cache) (now : Z)
  (key : string) (doc : Value) (e : Error) :
  webStorage me = true ->
  backend_entry me key = Some doc ->
  deserialize host doc = Raise e ->
  e <> Outside ->
  get host me now key = (me, Raise e) /\ has host me key = Raise e.
Proof.
  intros Hw Hb Hd _.
  assert (Hf : _fetch_value host me key = Raise e).
  { unfold _fetch_value, backend_entry, _thaw, webStorage in *.
    destruct me as [pfx [m|w]]; simpl in *; [discriminate|].
    now rewrite Hb. }
  unfold get, has. now rewrite Hf.
Qed.

Lemma corrupt_document_raises_witness :
  let me := web_cache default_prefix
              [("Ext.ux.Cache.b",
                node "array" (VArray [node "boolean" (VString "maybe")]))] in
  get plain_host me 0 "b" = (me, Raise InvalidSerializedBoolean)
  /\ has plain_host me "b" = Raise InvalidSerializedBoolean.
Proof.
  intros me.
  apply (corrupt_document_raises plain_host me 0 "b"
           (node "array" (VArray [node "boolean" (VString "maybe")]))
           InvalidSerializedBoolean);
    [reflexivity|reflexivity|reflexivity|discriminate].
Defined.

(** ** Documents *)

(** X20. Storable values that differ have documents that differ, so
    that the string "NaN" and the number NaN, or the string "true" and the
    boolean true, are never stored alike. *)
Theorem serializer_injective (v1 v2 : Value) :
  storable v1 = true -> storable v2 = true ->
  v1 <> v2 ->
  _serialize_value v1 <> _serialize_value v2.
Proof.
  intros H1 H2 Hn H. apply Hn.
  rewrite (serialize_storable v1 H1), (serialize_storable v2 H2) in H.
  injection H as H.
  pose proof (deserialize_document plain_host v1 H1) as D1.
  pose proof (deserialize_document plain_host v2 H2) as D2.
  rewrite H in D1. congruence.
Qed.

Lemma serializer_injective_witness :
  _serialize_value (VArray [VString "NaN"; VBoolean true])
  <> _serialize_value (VArray [VNumber NaN; VString "true"]).
Proof.
  apply (serializer_injective (VArray [VString "NaN"; VBoolean true])
           (VArray [VNumber NaN; VString "true"]));
    [reflexivity|reflexivity|discriminate].
Defined.

(** X21. What a Web Storage holds after [set] of a storable value with
    no expiration or with a date for expiration: under the prefixed key,
    the document of type "object" whose two members are the document of
    the value, under "value", and the document of the expiration, under
    "expires" (of type "undefined" when there is none, of type "date"
    otherwise). *)
Theorem web_set_stores_document (me : Cache) (now : Z)
  (key value expires : Value) (k : string) :
  webStorage me = true ->
  check_input key value expires = Ok k ->
  storable value = true -> storable expires = true ->
  isNumber expires = false ->
  exists me',
    set me now key value expires = (me', Ok value)
    /\ backend_entry me' k
       = Some (node "object"
                 (VObject [("value", document value);
                           ("expires", document expires)])).
Proof.
  intros Hw Hc Hv He Hn.
  assert (Hx : expiration now expires = expires).
  { apply check_input_expires in Hc.
    destruct expires as [| |s|n|b|t|l|m| | | | |]; try discriminate;
      try reflexivity.
    destruct n; discriminate. }
  unfold set. rewrite Hc. unfold _freeze.
  rewrite webStorage_remove, Hw. cbn [negb]. rewrite Hx.
  assert (Hs : storable (entry value expires) = true)
    by (now apply storable_entry).
  rewrite (serialize_storable _ Hs). cbn [bind].
  rewrite (json_image_document _ Hs).
  eexists. split; [reflexivity|].
  destruct me as [pfx [m|w]]; [discriminate Hw|].
  unfold backend_entry, remove. cbn [storage keyPrefix removeItem setItem].
  now rewrite obj_get_set_same.
Qed.

Lemma web_set_stores_document_witness :
  exists me',
    set (web_cache default_prefix []) 0 (VString "test_add_remove")
      sample_value (VDate (Some 1000)) = (me', Ok sample_value)
    /\ backend_entry me' "test_add_remove"
       = Some (node "object"
                 (VObject [("value", document sample_value);
                           ("expires", document (VDate (Some 1000)))])).
Proof.
  apply (web_set_stores_document (web_cache default_prefix []) 0
           (VString "test_add_remove") sample_value (VDate (Some 1000))
           "test_add_remove"); reflexivity.
Defined.

(** ** Expiration at a date *)

(** X22. An expiration given as a date: after [set(key, value, date)]
    of a storable value, with the date at time value [t], [get] returns
    the value at every time up to [t] included and evicts the entry at
    every later time; with the invalid date for expiration the entry never
    expires. *)
Theorem expiration_at_date (host : Host) (me : Cache) (now0 t : Z)
  (key value : Value) (k : string) :
  check_input key value (VDate (Some t)) = Ok k ->
  storable value = true ->
  Z.abs t <= 8640000000000000 ->
  (exists me',
      set me now0 key value (VDate (Some t)) = (me', Ok value)
      /\ (forall now, now <= t -> get host me' now k = (me', Ok value))
      /\ (forall now, t < now ->
            get host me' now k = (remove me' k, Ok VUndefined)))
  /\ (exists me',
        set me now0 key value (VDate None) = (me', Ok value)
        /\ forall now, get host me' now k = (me', Ok value)).
Proof.
  intros Hc Hv Ht.
  assert (Hd : storable (VDate (Some t)) = true) by (simpl; lia).
  assert (Hc' : check_input key value (VDate None) = Ok k).
  { revert Hc. unfold check_input. destruct key; try discriminate.
    destruct (s =? "")%string; try discriminate.
    destruct value; try discriminate; auto. }
  split.
  - destruct (fetch_after_set_storable host me now0 key value _ k Hc Hv Hd)
      as [me' [Hset Hf]].
    exists me'. split; [assumption|].
    cbn [expiration] in Hf. unfold entry in Hf.
    split; intros now H; rewrite (get_fetched host me' now k _ Hf);
      change (obj_read _ "expires") with (VDate (Some t));
      change (obj_read _ "value") with value;
      rewrite expired_date.
    + apply Z.ltb_ge in H. now rewrite H.
    + apply Z.ltb_lt in H. now rewrite H.
  - destruct (fetch_after_set_storable host me now0 key value _ k Hc' Hv
                eq_refl) as [me' [Hset Hf]].
    exists me'. split; [assumption|]. intros now.
    cbn [expiration] in Hf. unfold entry in Hf.
    now rewrite (get_fetched host me' now k _ Hf).
Qed.

Lemma expiration_at_date_witness :
  (exists me',
      set (web_cache default_prefix []) 0 (VString "k") (VString "fubar")
        (VDate (Some 1000)) = (me', Ok (VString "fubar"))
      /\ get plain_host me' 1000 "k" = (me', Ok (VString "fubar"))
      /\ get plain_host me' 1001 "k" = (remove me' "k", Ok VUndefined))
  /\ (exists me',
        set (web_cache default_prefix []) 0 (VString "k") (VString "fubar")
          (VDate None) = (me', Ok (VString "fubar"))
        /\ get plain_host me' 1001 "k" = (me', Ok (VString "fubar"))).
Proof.
  destruct (expiration_at_date plain_host (web_cache default_prefix []) 0 1000
              (VString "k") (VString "fubar") "k")
    as [[me1 [Hset1 [Hin Hout]]] [me2 [Hset2 Hnever]]];
    [reflexivity|reflexivity|lia|].
  split.
  - exists me1. split; [exact Hset1|]. split; [apply Hin|apply Hout]; lia.
  - exists me2. split; [exact Hset2|apply Hnever].
Defined.

(** ** [keys] after [set] *)

Lemma short_keys_In (pfx k : string) (ks : list string) :
  In (pfx ++ k) ks -> In k (short_keys pfx ks).
Proof.
  intros H. unfold short_keys. apply in_flat_map. exists (pfx ++ k).
  split; [assumption|].
  rewrite (indexOf_prefix _ _ (prefix_append pfx k)). left. simpl.
  apply (append_inj_left pfx). apply prefix_substr, prefix_append.
Qed.

Lemma obj_keys_set_In {A : Type} (o : list (string * A)) (k : string) (v : A) :
  In k (obj_keys (obj_set o k v)).
Proof. eapply obj_get_In. apply obj_get_set_same. Qed.

(** X23. A key that was set is listed: after a [set(key, value, expires)]
    that returned, on a Web Storage or, for an ordinary key, on an aligned
    and ordinary in-memory storage, [keys] returns a list that holds the
    key. *)
Theorem keys_after_set (me me' : Cache) (now : Z) (key value expires : Value)
  (k : string) :
  cache_aligned me ->
  cache_ordinary me ->
  ordinary_key me k = true ->
  check_input key value expires = Ok k ->
  set me now key value expires = (me', Ok value) ->
  exists ks, keys me' = Ok ks /\ In k ks.
Proof.
  intros Ha _ _ Hc Hs. unfold set in Hs. rewrite Hc in Hs.
  destruct (_freeze (remove me k) (entry value (expiration now expires)))
    as [frozen|e] eqn:Hf; [|discriminate Hs].
  injection Hs as <-.
  destruct me as [pfx [m|w]]; unfold remove; cbn [keyPrefix storage removeItem setItem].
  - unfold _freeze in Hf. simpl in Hf. injection Hf as <-.
    unfold cache_aligned in Ha. simpl in Ha.
    pose proof (aligned_setItem _ (pfx ++ k)
                  (entry value (expiration now expires)) eq_refl
                  (aligned_removeItem m (pfx ++ k) Ha)) as Ha'.
    set (m' := MemStorage.setItem _ _ _) in *.
    destruct Ha' as [Hk [_ [Hl _]]].
    eexists. split.
    + unfold keys, _get_keys. cbn [storage keyPrefix storage_length].
      rewrite get_keys_loop_memory by (rewrite Hl, Nat2Z.id; reflexivity).
      reflexivity.
    + cbn [app skipn]. apply short_keys_In. rewrite Hk. unfold m'.
      unfold MemStorage.setItem. cbn [MemStorage.items].
      match goal with
      | |- In _ (obj_keys (obj_set ?o _ _)) =>
          replace o with (MemStorage.items (MemStorage.removeItem m (pfx ++ k)))
            by (destruct (negb _); reflexivity)
      end.
      apply obj_keys_set_In.
  - change (mkCache pfx (Web ?x)) with (web_cache pfx x).
    rewrite keys_web. eexists. split; [reflexivity|].
    apply short_keys_In, obj_keys_set_In.
Qed.

Lemma keys_after_set_witness :
  exists ks,
    keys (fst (set cache_with_k 0 (VString "j") (VNumber (Fin 1)) VUndefined))
    = Ok ks
    /\ In "j" ks.
Proof.
  apply (keys_after_set cache_with_k
           (fst (set cache_with_k 0 (VString "j") (VNumber (Fin 1)) VUndefined))
           0 (VString "j") (VNumber (Fin 1)) VUndefined "j");
    [exact I|exact I|reflexivity|reflexivity|reflexivity].
Defined.

(** ** The constructor *)

(** X24. The storage the constructor binds.  The cache falls back to the
    in-memory storage, with the empty prefix whatever [config.keyPrefix]
    is, on IE6 and IE7, and for a [storage] option that is neither
    "permanent", "session" nor falsy; "permanent" binds the local storage
    and never the session storage, "session" or a falsy option binds the
    session storage; a bound Web Storage takes the prefix of [config], or
    "Ext.ux.Cache." when none is given. *)
Theorem constructor_binds_storage (browser : Browser) (memory : MemStorage.t)
  (config : Config) :
  let me := constructor browser memory config in
  let pfx := match config_keyPrefix config with
             | Some p => p
             | None => "Ext.ux.Cache."
             end in
  (webStorage me = false -> me = memory_cache memory)
  /\ (isIE6 browser || isIE7 browser = true -> me = memory_cache memory)
  /\ (is_string (config_storage config) "permanent" = false ->
      is_string (config_storage config) "session" = false ->
      truthy (config_storage config) = true ->
      me = memory_cache memory)
  /\ (is_string (config_storage config) "permanent" = true ->
      me = match localStorage browser with
           | Some w =>
               if isIE6 browser || isIE7 browser then memory_cache memory
               else web_cache pfx w
           | None => memory_cache memory
           end)
  /\ (is_string (config_storage config) "session"
      || negb (truthy (config_storage config)) = true ->
      me = match sessionStorage browser with
           | Some w =>
               if isIE6 browser || isIE7 browser then memory_cache memory
               else web_cache pfx w
           | None => memory_cache memory
           end).
Proof.
  unfold constructor, memory_cache, web_cache.
  destruct browser as [ie6 ie7 ls ss], config as [st kp]; simpl.
  repeat split.
  - destruct (is_string st "permanent"),
      (is_string st "session" || negb (truthy st)), ie6, ie7, ls, ss;
      simpl; intros H; try discriminate H; reflexivity.
  - intros H.
    destruct (is_string st "permanent"),
      (is_string st "session" || negb (truthy st)), ie6, ie7, ls, ss;
      simpl in *; try discriminate H; reflexivity.
  - intros -> -> ->. reflexivity.
  - intros ->. destruct ie6, ie7, ls; reflexivity.
  - intros H. destruct (is_string st "permanent") eqn:E.
    + exfalso. destruct st; try discriminate E. simpl in *.
      apply String.eqb_eq in E. subst. discriminate H.
    + rewrite H. destruct ie6, ie7, ss; reflexivity.
Qed.

(** ** [get] over time *)

Lemma expired_mono (host : Host) (expires : Value) (now now' : Z) :
  now <= now' -> expired host expires now = Ok true ->
  expired host expires now' = Ok true.
Proof.
  intros Hle. unfold expired.
  destruct (truthy expires); [|discriminate].
  destruct (to_number host expires) as [n|e]; cbn [bind]; [|discriminate].
  intros [= H]. f_equal. destruct n; simpl in *; try discriminate;
    try reflexivity; rewrite Z.ltb_lt in *; lia.
Qed.

(** Whether the comparison raises does not depend on the time. *)
Lemma expired_raises (host : Host) (expires : Value) (now now' : Z)
  (e : Error) :
  expired host expires now = Raise e -> expired host expires now' = Raise e.
Proof.
  unfold expired. destruct (truthy expires); [|discriminate].
  destruct (to_number host expires) as [n|e0]; cbn [bind];
    [discriminate|auto].
Qed.

(** X25. Expiration is monotone in time, whatever the entry holds for
    [expires]: a value that [get] returns at some time is returned, with
    the cache unchanged, at every earlier time. *)
Theorem readable_earlier (host : Host) (me me' : Cache) (now now' : Z)
  (key : string) (v : Value) :
  get host me now key = (me', Ok v) ->
  v <> VUndefined ->
  now' <= now ->
  me' = me /\ get host me now' key = (me, Ok v).
Proof.
  unfold get. destruct (_fetch_value host me key) as [item|e];
    [|discriminate].
  intros H Hv Hle.
  destruct item; cbn [prop] in H; try discriminate H;
    try (simpl in H; injection H as <- <-; contradiction).
  destruct (expired host (obj_read members "expires") now) as [[|]|e1] eqn:E.
  - injection H as _ <-. contradiction.
  - injection H as <- H. split; [reflexivity|]. cbn [prop].
    destruct (expired host (obj_read members "expires") now')
      as [[|]|e'] eqn:E'.
    + rewrite (expired_mono host _ now' now Hle E') in E. discriminate E.
    + now rewrite H.
    + rewrite (expired_raises host _ now' now e' E') in E. discriminate E.
  - discriminate H.
Qed.

Lemma readable_earlier_witness :
  let me := fst (set (web_cache default_prefix []) 1000 (VString "k")
                   (VString "bar") (VNumber (Fin 100))) in
  me = me /\ get plain_host me 1050 "k" = (me, Ok (VString "bar")).
Proof.
  intros me.
  apply (readable_earlier plain_host me me 1100 1050 "k" (VString "bar"));
    [reflexivity|discriminate|lia].
Defined.

(** X26. Reading twice on a Web Storage: a second [get] of the same key
    at the same time returns what the first returned and changes the
    cache no further. *)
Theorem get_twice (host : Host) (me : Cache) (now : Z) (key : string) :
  webStorage me = true ->
  get host (fst (get host me now key)) now key
  = (fst (get host me now key), snd (get host me now key)).
Proof.
  intros Hw.
  assert (Hr : get host (remove me key) now key
               = (remove me key, Ok VUndefined)).
  { destruct me as [pfx [m|w]]; [discriminate Hw|].
    change (mkCache pfx (Web w)) with (web_cache pfx w).
    unfold get. now rewrite fetch_removed_web. }
  unfold get at 2 3 4.
  destruct (_fetch_value host me key) as [item|e] eqn:Hf.
  - destruct item; cbn [prop];
      try change (expired host VUndefined now) with (@Ok bool false);
      cbn [fst snd];
      try (unfold get; rewrite Hf; reflexivity).
    destruct (expired host (obj_read members "expires") now) as [[|]|e1] eqn:E;
      cbn [fst snd]; [assumption| |];
      unfold get; rewrite Hf; cbn [prop]; now rewrite E.
  - cbn [fst snd]. unfold get. now rewrite Hf.
Qed.

Lemma get_twice_witness :
  get plain_host (fst (get plain_host expired_cache 1000 "k")) 1000 "k"
  = (fst (get plain_host expired_cache 1000 "k"),
     snd (get plain_host expired_cache 1000 "k")).
Proof.
  apply (get_twice plain_host expired_cache 1000 "k"). reflexivity.
Defined.
